(** * Advent of Code 2023 (Rust): a shallow embedding of the CLI harness and of
    the solvers of days 1, 6, 20 and 25, with the properties of the spec. *)

From Stdlib Require Import List String Ascii ZArith NArith Bool Lia Permutation.
Import ListNotations.

Open Scope Z_scope.

(** ** Panics and the option monad

    A Rust [unwrap], [expect] or failed [assert!] aborts the process: every
    fallible operation returns [option], [None] standing for the panic. *)

Definition obind {A B} (m : option A) (k : A -> option B) : option B :=
  match m with Some a => k a | None => None end.

Notation "x <- m ;; k" := (obind m (fun x => k))
  (at level 61, m at next level, right associativity).

(** ** Text

    A Rust [&str] is a sequence of Unicode scalar values; a [char] is its code
    point. [txt] writes an ASCII literal as such a text. *)

Definition rchar := N.
Definition text := list rchar.

Definition txt (s : string) : text := map N_of_ascii (list_ascii_of_string s).

(** [char::is_digit(10)]: the ASCII digits only. *)
Definition is_digit10 (c : rchar) : bool := (48 <=? c)%N && (c <=? 57)%N.

(** [char::is_whitespace]: the Unicode White_Space property. *)
Definition is_whitespace (c : rchar) : bool :=
  ((9 <=? c)%N && (c <=? 13)%N) || (c =? 32)%N || (c =? 133)%N || (c =? 160)%N
  || (c =? 5760)%N || ((8192 <=? c)%N && (c <=? 8202)%N)
  || (c =? 8232)%N || (c =? 8233)%N || (c =? 8239)%N || (c =? 8287)%N
  || (c =? 12288)%N.

Fixpoint drop_while (p : rchar -> bool) (s : text) : text :=
  match s with
  | [] => []
  | c :: s' => if p c then drop_while p s' else s
  end.

(** [str::trim]: strip leading and trailing whitespace. *)
Definition trim (s : text) : text :=
  rev (drop_while is_whitespace (rev (drop_while is_whitespace s))).

(** [str::lines]: [split_inclusive('\n')], then strip a final ["\n"] and, after
    it, a final ["\r"]; a last piece without ["\n"] is kept as it is, and no
    empty piece follows a final ["\n"]. [cur] is the current line, reversed. *)
Definition strip_cr (cur : text) : text :=
  match cur with
  | x :: r => if (x =? 13)%N then rev r else rev cur
  | [] => []
  end.

Fixpoint lines_go (s : text) (cur : text) : list text :=
  match s with
  | [] => match cur with [] => [] | _ => [rev cur] end
  | c :: s' =>
      if (c =? 10)%N then
        strip_cr cur :: lines_go s' []
      else lines_go s' (c :: cur)
  end.

Definition lines (s : text) : list text := lines_go s [].

(** [str::split(c)]: all pieces between occurrences of [c], empty ones included. *)
Fixpoint split_on_go (sep : rchar) (s : text) (cur : text) : list text :=
  match s with
  | [] => [rev cur]
  | c :: s' => if (c =? sep)%N then rev cur :: split_on_go sep s' []
               else split_on_go sep s' (c :: cur)
  end.

Definition split_on (sep : rchar) (s : text) : list text := split_on_go sep s [].

(** [str::split_whitespace]: the non-empty runs of non-whitespace. *)
Definition split_whitespace (s : text) : list text :=
  filter (fun w => match w with [] => false | _ => true end)
    (fold_right (fun c acc =>
       if is_whitespace c then [] :: acc
       else match acc with
            | w :: acc' => (c :: w) :: acc'
            | [] => [[c]]
            end) [[]] s).

Fixpoint is_prefix (p s : text) : bool :=
  match p, s with
  | [], _ => true
  | a :: p', b :: s' => (a =? b)%N && is_prefix p' s'
  | _ :: _, [] => false
  end.

(** [str::replace(pat, rep)] for a non-empty [pat] (every call site uses a
    non-empty literal): matches are taken from left to right and do not
    overlap; [skip] counts the characters of the last match still to pass. *)
Fixpoint replace_go (pat rep : text) (skip : nat) (s : text) : text :=
  match s with
  | [] => []
  | c :: s' =>
      match skip with
      | S k => replace_go pat rep k s'
      | O => if is_prefix pat s then rep ++ replace_go pat rep (pred (List.length pat)) s'
             else c :: replace_go pat rep O s'
      end
  end.

Definition replace (pat rep : text) (s : text) : text := replace_go pat rep O s.

(** ** Integer parsing: [str::parse::<i64>] and [str::parse::<u32>]

    An optional ['+'] (and ['-'] for a signed type), then one or more ASCII
    digits; a value out of the type's range is an error. *)

Fixpoint digits_value (acc : Z) (ds : text) : option Z :=
  match ds with
  | [] => Some acc
  | d :: ds' => if is_digit10 d then digits_value (10 * acc + Z.of_N (d - 48)) ds'
                else None
  end.

Definition parse_int (signed : bool) (lo hi : Z) (s : text) : option Z :=
  let '(neg, body) :=
    match s with
    | c :: rest => if (c =? 43)%N then (false, rest)
                   else if signed && (c =? 45)%N then (true, rest) else (false, s)
    | [] => (false, [])
    end in
  match body with
  | [] => None
  | _ => v <- digits_value 0 body ;;
         let v' := if neg then - v else v in
         if (lo <=? v') && (v' <=? hi) then Some v' else None
  end.

Definition parse_i64 : text -> option Z :=
  parse_int true (- 2 ^ 63) (2 ^ 63 - 1).
Definition parse_u32 : text -> option Z :=
  parse_int false 0 (2 ^ 32 - 1).

(** [Iterator::sum] and [Iterator::product] over a lazily mapped iterator whose
    items may panic: the first panicking item aborts. The values are kept in
    [Z]; no input of these puzzles comes near the 64-bit range. *)
Fixpoint sum_opt (xs : list (option Z)) : option Z :=
  match xs with
  | [] => Some 0
  | x :: xs' => v <- x ;; s <- sum_opt xs' ;; Some (v + s)
  end.

(** ** Day 1 *)
Module Day01.

(** The number of one line: its first and last digit, parsed together. *)
Definition line_number (line : text) : option Z :=
  let digits := filter is_digit10 (trim line) in
  match digits with
  | [] => None  (* digits.first().unwrap() *)
  | d :: _ => parse_i64 [d; last digits d]
  end.

Definition sum_numbers (input : text) : option Z :=
  sum_opt (map line_number (lines input)).

Definition part1 (input : text) : option Z := sum_numbers input.

Local Open Scope string_scope.

Definition replacements : list (string * string) :=
  [("one", "o1e"); ("two", "t2o"); ("three", "th3ee"); ("four", "f4ur");
   ("five", "f5ve"); ("six", "s6x"); ("seven", "se7en"); ("eight", "ei8ht");
   ("nine", "n9ne")].

Definition part2 (input : text) : option Z :=
  let input_fixed :=
    fold_left (fun s '(search, repl) => replace (txt search) (txt repl) s)
      replacements input in
  sum_numbers input_fixed.

(** The example inputs of the tests: a Rust ["\"] line continuation drops the
    first line's indentation, the later lines keep theirs. *)
Definition indent : string := "            ".
Definition nl : string := String (ascii_of_nat 10) EmptyString.

Definition example1 : text :=
  txt ("1abc2" ++ nl ++ indent ++ "pqr3stu8vwx" ++ nl ++ indent ++ "a1b2c3d4e5f"
       ++ nl ++ indent ++ "treb7uchet").

Definition example2 : text :=
  txt ("two1nine" ++ nl ++ indent ++ "eightwothree" ++ nl ++ indent
       ++ "abcone2threexyz" ++ nl ++ indent ++ "xtwone3four" ++ nl ++ indent
       ++ "4nineeightseven2" ++ nl ++ indent ++ "zoneight234" ++ nl ++ indent
       ++ "7pqrstsixteen").

End Day01.

(** ** Day 6 *)
Module Day06.

(** Integers of the source ([I = i64]) are unbounded here: the source's
    arithmetic overflows on large races, and the properties below that depend
    on it keep to inputs where it does not.

    [ways_to_win]: the loop [for t in 0..max_time], counting the hold times
    [t] whose distance [(max_time - t) * t] beats the record. [n] is the
    number of iterations left. *)
Fixpoint ways_go (max_time record_distance : Z) (t : Z) (n : nat) (wins : Z) : Z :=
  match n with
  | O => wins
  | S n' =>
      let speed := t in
      let remaining_time := max_time - t in
      let dist := remaining_time * speed in
      ways_go max_time record_distance (t + 1) n'
        (if dist >? record_distance then wins + 1 else wins)
  end.

Definition ways_to_win (round : Z * Z) : Z :=
  let '(max_time, record_distance) := round in
  ways_go max_time record_distance 0 (Z.to_nat max_time) 0.

(** The numbers of one line: the part after the last [':'], trimmed and split
    at whitespace; they are parsed lazily, when [zip] pulls them. *)
Definition numbers (line : text) : list text :=
  split_whitespace (trim (last (split_on 58%N line) [])).

(** [times.zip(distances)]: [zip] pulls from [times] first, so a time is
    parsed even when no distance is left for it. *)
Fixpoint zip_parse (ts ds : list text) : option (list (Z * Z)) :=
  match ts with
  | [] => Some []
  | t :: ts' =>
      tv <- parse_i64 t ;;
      match ds with
      | [] => Some []
      | d :: ds' => dv <- parse_i64 d ;;
                    rest <- zip_parse ts' ds' ;; Some ((tv, dv) :: rest)
      end
  end.

Fixpoint product (xs : list Z) : Z :=
  match xs with [] => 1 | x :: xs' => x * product xs' end.

Definition part1 (input : text) : option Z :=
  match map numbers (lines input) with
  | times :: distances :: _ =>
      rounds <- zip_parse times distances ;;
      Some (product (map ways_to_win rounds))
  | _ => None  (* .pair(): next().unwrap() *)
  end.

Definition part2 (input : text) : option Z :=
  part1 (replace [32%N] [] input).

Local Open Scope string_scope.

Definition example : text :=
  txt ("Time:      7  15   30" ++ Day01.nl ++ Day01.indent ++ "Distance:  9  40  200").

End Day06.

(** ** Day 20 *)

(** The result of a loop that may not terminate, run with a fuel budget:
    [OutOfFuel] only says the budget was spent. *)
Inductive run (A : Type) : Type :=
| Finished (a : A)
| Panicked
| OutOfFuel.
Arguments Finished {A} a.
Arguments Panicked {A}.
Arguments OutOfFuel {A}.

Fixpoint text_eqb (a b : text) : bool :=
  match a, b with
  | [], [] => true
  | x :: a', y :: b' => (x =? y)%N && text_eqb a' b'
  | _, _ => false
  end.

Module Day20.

Inductive ModuleType := Broadcast | FlipFlop | Conjunction.

Record Module := mkModule {
  name : text;
  module_type : ModuleType;
  inputs : list text;
  input_values : list bool;
  outputs : list text
}.

(** [HashMap<String, Module>], as its entries in iteration order. *)
Definition Circuit := list (text * Module).

(** (from, to, value) *)
Definition Signal := (text * text * bool)%type.

Fixpoint get (k : text) (c : Circuit) : option Module :=
  match c with
  | [] => None
  | (k', m) :: c' => if text_eqb k k' then Some m else get k c'
  end.

(** [HashMap::insert]: an existing key keeps its place. *)
Fixpoint insert (k : text) (m : Module) (c : Circuit) : Circuit :=
  match c with
  | [] => [(k, m)]
  | (k', m') :: c' => if text_eqb k k' then (k', m) :: c' else (k', m') :: insert k m c'
  end.

Fixpoint position (x : text) (l : list text) : option nat :=
  match l with
  | [] => None
  | y :: l' => if text_eqb y x then Some O else option_map S (position x l')
  end.

(** [v[index] = value], panicking out of range. *)
Fixpoint set_nth {A} (n : nat) (v : A) (l : list A) : option (list A) :=
  match l, n with
  | [], _ => None
  | _ :: l', O => Some (v :: l')
  | y :: l', S n' => option_map (cons y) (set_nth n' v l')
  end.

Definition set_input (m : Module) (from_module : text) (value : bool) : option Module :=
  index <- position from_module (inputs m) ;;
  vs <- set_nth index value (input_values m) ;;
  Some (mkModule (name m) (module_type m) (inputs m) vs (outputs m)).

(** [process_signal]: the new circuit and the value the target emits, if any. *)
Definition process_signal (circuit : Circuit) (signal : Signal)
    : option (Circuit * option bool) :=
  let '(from_module, to_module, value) := signal in
  match get to_module circuit with
  | None => Some (circuit, None)
  | Some m =>
      match module_type m with
      | Broadcast => Some (circuit, Some value)
      | FlipFlop =>
          match input_values m with
          | [] => None  (* input_values.get_mut(0).unwrap() *)
          | state :: rest =>
              if negb value then
                let m' := mkModule (name m) (module_type m) (inputs m)
                            (negb state :: rest) (outputs m) in
                Some (insert to_module m' circuit, Some (negb state))
              else Some (circuit, None)
          end
      | Conjunction =>
          m' <- set_input m from_module value ;;
          Some (insert to_module m' circuit,
                Some (negb (forallb (fun x => x) (input_values m'))))
      end
  end.

(** One button press: the [while let Some(signal) = signals.pop_front()]
    loop, with its counters of low and high pulses. *)
Fixpoint drain (fuel : nat) (circuit : Circuit) (signals : list Signal)
    (low high : Z) : run (Circuit * Z * Z) :=
  match signals with
  | [] => Finished (circuit, low, high)
  | signal :: signals' =>
      match fuel with
      | O => OutOfFuel
      | S fuel' =>
          let '(_, module_name, value) := signal in
          let low' := if value then low else low + 1 in
          let high' := if value then high + 1 else high in
          match process_signal circuit signal with
          | None => Panicked
          | Some (circuit', None) => drain fuel' circuit' signals' low' high'
          | Some (circuit', Some v) =>
              match get module_name circuit' with
              | None => Panicked  (* circuit[module_name] *)
              | Some m =>
                  drain fuel' circuit'
                    (signals' ++ map (fun o => (module_name, o, v)) (outputs m))
                    low' high'
              end
          end
      end
  end.

Definition button_signal : Signal := (txt "button", txt "broadcaster", false).

(** [for _ in 0..presses]. *)
Fixpoint press (presses : nat) (fuel : nat) (circuit : Circuit) (low high : Z)
    : run (Circuit * Z * Z) :=
  match presses with
  | O => Finished (circuit, low, high)
  | S p =>
      match drain fuel circuit [button_signal] low high with
      | Finished (circuit', low', high') => press p fuel circuit' low' high'
      | Panicked => Panicked
      | OutOfFuel => OutOfFuel
      end
  end.

(** *** The parser (winnow combinators) *)
Section Parse.

(** Rust's [char::is_alphabetic] (the Unicode Alphabetic property), used
    by [module_type]. *)
Variable is_alphabetic : rchar -> bool.

(** winnow's [AsChar::is_alphanum] on [char]: ASCII letters and digits. *)
Definition is_alphanum (c : rchar) : bool :=
  ((65 <=? c)%N && (c <=? 90)%N) || ((97 <=? c)%N && (c <=? 122)%N) || is_digit10 c.

(** [opt(take_while(1, |c| !c.is_alphabetic()))]: one non-alphabetic char. *)
Definition module_type_p (s : text) : ModuleType * text :=
  match s with
  | c :: rest =>
      if negb (is_alphabetic c) then
        ((if (c =? 38)%N then Conjunction
          else if (c =? 37)%N then FlipFlop else Broadcast), rest)
      else (Broadcast, s)
  | [] => (Broadcast, s)
  end.

Fixpoint span (p : rchar -> bool) (s : text) : text * text :=
  match s with
  | c :: s' => if p c then let '(a, b) := span p s' in (c :: a, b) else ([], s)
  | [] => ([], [])
  end.

(** [take_while(1.., AsChar::is_alphanum)]. *)
Definition id_p (s : text) : option (text * text) :=
  match span is_alphanum s with
  | ([], _) => None
  | r => Some r
  end.

Definition literal (l : text) (s : text) : option text :=
  if is_prefix l s then Some (skipn (List.length l) s) else None.

(** [separated(1.., id, ", ")]: after the first item, a separator followed
    by an item is taken as long as both succeed; otherwise the input is
    reset to before the separator. Every round consumes input, so [fuel], the
    length of the rest, is never the limit. *)
Fixpoint more_items (fuel : nat) (s : text) : list text * text :=
  match fuel with
  | O => ([], s)
  | S fuel' =>
      match literal (txt ", ") s with
      | None => ([], s)
      | Some s1 =>
          match id_p s1 with
          | None => ([], s)
          | Some (x, s2) => let '(xs, s3) := more_items fuel' s2 in (x :: xs, s3)
          end
      end
  end.

Definition connections_p (s : text) : option (list text * text) :=
  match id_p s with
  | None => None
  | Some (x, s1) => let '(xs, s2) := more_items (List.length s1) s1 in Some (x :: xs, s2)
  end.

(** [module.parse(line)]: the whole line must be consumed. *)
Definition module_p (s : text) : option Module :=
  let '(ty, s1) := module_type_p s in
  match id_p s1 with
  | None => None
  | Some (nm, s2) =>
      s3 <- literal (txt " -> ") s2 ;;
      match connections_p s3 with
      | Some (outs, []) => Some (mkModule nm ty [] [] outs)
      | _ => None
      end
  end.

Fixpoint parse_modules (ls : list text) : option (list Module) :=
  match ls with
  | [] => Some []
  | l :: ls' => m <- module_p (trim l) ;; ms <- parse_modules ls' ;; Some (m :: ms)
  end.

End Parse.

(** [for output in &module.outputs]: register [from] as an input of every
    output that is in the circuit. *)
Definition connect_outputs (circuit : Circuit) (from : Module) : Circuit :=
  fold_left (fun c output =>
    match get output c with
    | Some to => insert output
        (mkModule (name to) (module_type to) (inputs to ++ [name from])
           (input_values to ++ [false]) (outputs to)) c
    | None => c
    end) (outputs from) circuit.

Definition circuit (is_alphabetic : rchar -> bool) (input : text) : option Circuit :=
  modules <- parse_modules is_alphabetic (lines input) ;;
  let c0 := fold_left (fun c m => insert (name m) m c) modules [] in
  (* circuit.values().cloned(): a snapshot taken before the loop *)
  let c1 := fold_left connect_outputs (map snd c0) c0 in
  b <- get (txt "broadcaster") c1 ;;
  Some (insert (txt "broadcaster")
          (mkModule (name b) (module_type b) (inputs b ++ [txt "button"])
             (input_values b ++ [false]) (outputs b)) c1).

(** Part 1, each press run with [fuel] steps of its signal loop. The counts
    and their product are unbounded integers here, where the source's [i64]
    product overflows on circuits with billions of pulses. *)
Definition part1 (is_alphabetic : rchar -> bool) (fuel : nat) (input : text) : run Z :=
  match circuit is_alphabetic input with
  | None => Panicked
  | Some c =>
      match press 1000 fuel c 0 0 with
      | Finished (_, total_low_signals, total_high_signals) =>
          Finished (total_low_signals * total_high_signals)
      | Panicked => Panicked
      | OutOfFuel => OutOfFuel
      end
  end.

(** *** Part 2 *)

(** [Vec::contains] on names. *)
Definition contains (l : list text) (x : text) : bool := existsb (text_eqb x) l.

(** [HashMap<String, I>::insert] on the recorded periods. *)
Fixpoint insert_period (k : text) (v : Z) (m : list (text * Z)) : list (text * Z) :=
  match m with
  | [] => [(k, v)]
  | (k', v') :: m' =>
      if text_eqb k k' then (k', v) :: m' else (k', v') :: insert_period k v m'
  end.

(** The loop [for output in circuit[module_name].outputs.clone()] of part 2:
    the queue and the periods after it, or the value returned from inside
    it, the least common multiple of the periods. *)
Fixpoint push_outputs (second_level : list text) (i : Z) (module_name : text)
    (value : bool) (outs : list text) (signals : list Signal)
    (periods : list (text * Z)) : (list Signal * list (text * Z)) + Z :=
  match outs with
  | [] => inl (signals, periods)
  | output :: outs' =>
      let signals' := signals ++ [(module_name, output, value)] in
      if contains second_level module_name && value then
        let periods' := insert_period module_name i periods in
        if Nat.eqb (List.length periods') (List.length second_level) then
          inr (fold_left Z.lcm (map snd periods') 1)
        else push_outputs second_level i module_name value outs' signals' periods'
      else push_outputs second_level i module_name value outs' signals' periods
  end.

(** Press [i] of part 2: the signal loop, with [fuel] steps; it ends with the
    new circuit and periods, or with the value returned from inside it. *)
Fixpoint press2 (fuel : nat) (second_level : list text) (i : Z) (circuit : Circuit)
    (signals : list Signal) (periods : list (text * Z))
    : run ((Circuit * list (text * Z)) + Z) :=
  match signals with
  | [] => Finished (inl (circuit, periods))
  | signal :: signals' =>
      match fuel with
      | O => OutOfFuel
      | S fuel' =>
          let '(_, module_name, value) := signal in
          if text_eqb module_name (txt "rx") && negb value then Finished (inr i) else
          match process_signal circuit signal with
          | None => Panicked
          | Some (circuit', None) => press2 fuel' second_level i circuit' signals' periods
          | Some (circuit', Some v) =>
              match get module_name circuit' with
              | None => Panicked  (* circuit[module_name] *)
              | Some m =>
                  match push_outputs second_level i module_name v (outputs m) signals' periods with
                  | inr r => Finished (inr r)
                  | inl (signals'', periods') =>
                      press2 fuel' second_level i circuit' signals'' periods'
                  end
              end
          end
      end
  end.

(** [for i in 1..], run for at most [presses] presses. *)
Fixpoint presses2 (presses fuel : nat) (second_level : list text) (i : Z)
    (circuit : Circuit) (periods : list (text * Z)) : run Z :=
  match presses with
  | O => OutOfFuel
  | S p =>
      match press2 fuel second_level i circuit [button_signal] periods with
      | Finished (inr r) => Finished r
      | Finished (inl (circuit', periods')) =>
          presses2 p fuel second_level (i + 1) circuit' periods'
      | Panicked => Panicked
      | OutOfFuel => OutOfFuel
      end
  end.

(** Part 2, with at most [presses] presses of [fuel] steps each; the
    [lcm] of the [num] crate is [Z.lcm], on unbounded integers, where the
    source's [i64] [lcm] overflows for large periods. *)
Definition part2 (is_alphabetic : rchar -> bool) (presses fuel : nat) (input : text) : run Z :=
  match circuit is_alphabetic input with
  | None => Panicked
  | Some c =>
      match find (fun m => contains (outputs m) (txt "rx")) (map snd c) with
      | None => Panicked  (* .find(..).unwrap() *)
      | Some to_rx =>
          let conjunction_to_rx := name to_rx in
          let second_level_conjunctions :=
            map name (filter (fun m => contains (outputs m) conjunction_to_rx) (map snd c)) in
          presses2 presses fuel second_level_conjunctions 1 c []
      end
  end.

Definition ascii_alphabetic (c : rchar) : bool :=
  ((65 <=? c)%N && (c <=? 90)%N) || ((97 <=? c)%N && (c <=? 122)%N).

Local Open Scope string_scope.
Definition indent8 : string := "        ".

Definition example : text :=
  txt ("broadcaster -> a" ++ Day01.nl ++ indent8 ++ "%a -> inv, con" ++ Day01.nl
       ++ indent8 ++ "&inv -> b" ++ Day01.nl ++ indent8 ++ "%b -> con" ++ Day01.nl
       ++ indent8 ++ "&con -> output").

End Day20.

(** ** Day 25 *)
Module Day25.

(** A node is identified by three chars. *)
Definition Node := (rchar * rchar * rchar)%type.

Definition node_eqb (a b : Node) : bool :=
  let '(a1, a2, a3) := a in let '(b1, b2, b3) := b in
  (a1 =? b1)%N && (a2 =? b2)%N && (a3 =? b3)%N.

Definition mem (x : Node) (l : list Node) : bool := existsb (node_eqb x) l.

(** [Itertools::unique]: the first occurrence of each node, in order. *)
Fixpoint unique_go (seen : list Node) (l : list Node) : list Node :=
  match l with
  | [] => []
  | x :: l' => if mem x seen then unique_go seen l' else x :: unique_go (x :: seen) l'
  end.
Definition unique (l : list Node) : list Node := unique_go [] l.

(** [HashMap<Node, Vec<Node>>], as its entries in iteration order. *)
Definition Graph := list (Node * list Node).

Fixpoint lookup {V} (k : Node) (m : list (Node * V)) : option V :=
  match m with
  | [] => None
  | (k', v) :: m' => if node_eqb k k' then Some v else lookup k m'
  end.

(** [graph.entry(k).or_insert(vec![]).push(v)]. *)
Fixpoint push_adjacent (k v : Node) (g : Graph) : Graph :=
  match g with
  | [] => [(k, [v])]
  | (k', vs) :: g' => if node_eqb k k' then (k', vs ++ [v]) :: g'
                      else (k', vs) :: push_adjacent k v g'
  end.

(** [parse::alphanums]: the maximal runs of ASCII letters and digits of a
    line; a line without any makes it panic. *)
Definition alphanums (line : text) : option (list text) :=
  let runs := filter (fun w => match w with [] => false | _ => true end)
    (fold_right (fun c acc =>
       if negb (Day20.is_alphanum c) then [] :: acc
       else match acc with
            | w :: acc' => (c :: w) :: acc'
            | [] => [[c]]
            end) [[]] line) in
  match runs with [] => None | _ => Some runs end.

(** [parse_node_id]: the first three chars of [name + "__"]. *)
Definition parse_node_id (name : text) : Node :=
  match name ++ [95%N; 95%N] with
  | a :: b :: c :: _ => (a, b, c)
  | _ => (95%N, 95%N, 95%N)  (* unreachable: [name] is non-empty *)
  end.

Fixpoint alphanums_all (ls : list text) : option (list (list text)) :=
  match ls with
  | [] => Some []
  | l :: ls' => it <- alphanums l ;; its <- alphanums_all ls' ;; Some (it :: its)
  end.

Definition add_item (g : Graph) (item : list text) : Graph :=
  match item with
  | [] => g
  | node_a :: rest =>
      fold_left (fun g node_b =>
        push_adjacent (parse_node_id node_b) (parse_node_id node_a)
          (push_adjacent (parse_node_id node_a) (parse_node_id node_b) g))
        rest g
  end.

Definition parse (input : text) : option Graph :=
  items <- alphanums_all (lines input) ;;
  let g := fold_left add_item items [] in
  Some (map (fun '(n, adjacent) => (n, unique adjacent)) g).

(** *** Karger's contraction

    The merged graph maps each remaining node to its neighbours and to the
    nodes merged into it. The random generator is the sequence [rng] of its
    draws; [gen_range(0..n)] takes the next draw modulo [n] and panics on the
    empty range [0..0]. *)
Definition MGraph := list (Node * (list Node * list Node)).

Definition gen_range (rng : nat -> nat) (k : nat) (n : nat) : option nat :=
  match n with O => None | _ => Some (Nat.modulo (rng k) n) end.

(** [HashMap::remove]. *)
Fixpoint remove (k : Node) (m : MGraph) : option ((list Node * list Node) * MGraph) :=
  match m with
  | [] => None
  | (k', v) :: m' =>
      if node_eqb k k' then Some (v, m')
      else match remove k m' with
           | Some (w, m'') => Some (w, (k', v) :: m'')
           | None => None
           end
  end.

(** The contraction of [merged_node] into [merge_into], after both were
    removed: the reinserted entry, then the renaming in every list. *)
Definition relink (merged_node merge_into : Node) (m : MGraph) : MGraph :=
  map (fun '(n, (neighbors, inner)) =>
    (n, (if mem merged_node neighbors then
           unique (map (fun x => if node_eqb x merged_node then merge_into else x) neighbors)
         else neighbors, inner))) m.

(** [while merged_graph.len() > 2]: every iteration removes one entry, so
    [length] iterations are enough; [k] counts the draws taken. *)
Fixpoint contract (fuel : nat) (rng : nat -> nat) (k : nat) (m : MGraph) : run MGraph :=
  if Nat.leb (List.length m) 2 then Finished m else
  match fuel with
  | O => OutOfFuel
  | S fuel' =>
      match gen_range rng k (List.length m) with
      | None => Panicked
      | Some i =>
      match nth_error m i with
      | None => Panicked
      | Some (merged_node, _) =>
      match remove merged_node m with
      | None => Panicked
      | Some ((old_neighbors, previously_merged), m1) =>
      match gen_range rng (S k) (List.length old_neighbors) with
      | None => Panicked
      | Some j =>
      match nth_error old_neighbors j with
      | None => Panicked
      | Some merge_into =>
      match remove merge_into m1 with
      | None => Panicked
      | Some ((new_merged_neighbors, new_merged_inner), m2) =>
          if mem merge_into new_merged_neighbors then Panicked (* assert! *) else
          let inner := new_merged_inner ++ previously_merged in
          let neighbors :=
            filter (fun n => negb (node_eqb n merge_into) && negb (node_eqb n merged_node))
              (new_merged_neighbors ++ old_neighbors) in
          contract fuel' rng (S (S k))
            (relink merged_node merge_into (m2 ++ [(merge_into, (neighbors, inner))]))
      end end end end end end
  end.

Definition count {A} (p : A -> bool) (l : list A) : Z := Z.of_nat (List.length (filter p l)).

(** The number of edges between the two final groups, and their sizes. *)
Fixpoint cut_edges (graph : Graph) (merged_a merged_b : list Node) : option Z :=
  match merged_a with
  | [] => Some 0
  | node :: rest =>
      adjacent <- lookup node graph ;;  (* graph[node] *)
      c <- cut_edges graph rest merged_b ;;
      Some (count (fun n => mem n merged_b) adjacent + c)
  end.

Definition karger_min_cut (graph : Graph) (rng : nat -> nat) : run (Z * Z * Z) :=
  let merged_graph := map (fun '(n, adjacent) => (n, (adjacent, [n]))) graph in
  match contract (List.length merged_graph) rng 0 merged_graph with
  | Finished [(_, (_, merged_a)); (_, (_, merged_b))] =>
      match cut_edges graph merged_a merged_b with
      | Some c => Finished (c, Z.of_nat (List.length merged_a), Z.of_nat (List.length merged_b))
      | None => Panicked
      end
  | Finished _ => Panicked  (* collect_tuple().unwrap() *)
  | Panicked => Panicked
  | OutOfFuel => OutOfFuel
  end.

(** *** Part 1: [(0..1000).par_bridge().map(..).find_any(|(cuts, _)| *cuts == 3)]

    Trial [i] runs [karger_min_cut] with the draws [rngs i] of its thread's
    generator. [par_bridge] hands out the indices of [0..1000] in order, so
    the trials that ran are [0..m); [order] lists them in the order they
    completed. A panic in any trial that ran is propagated; otherwise the
    first completed trial with a 3-edge cut gives the result, and if there is
    none the [expect] panics. *)
Definition trial_result (graph : Graph) (rngs : nat -> nat -> nat) (i : nat)
    : run (Z * Z * Z) :=
  karger_min_cut graph (rngs i).


Definition is_panic {A} (r : run A) : bool :=
  match r with Panicked => true | _ => false end.

Definition is_out_of_fuel {A} (r : run A) : bool :=
  match r with OutOfFuel => true | _ => false end.

Fixpoint first_three_cut (results : list (run (Z * Z * Z))) : option Z :=
  match results with
  | [] => None
  | Finished (cuts, subgraph_a, subgraph_b) :: rs =>
      if cuts =? 3 then Some (subgraph_a * subgraph_b) else first_three_cut rs
  | _ :: rs => first_three_cut rs
  end.

Definition find_any (results : list (run (Z * Z * Z))) : run Z :=
  if existsb is_panic results then Panicked
  else if existsb is_out_of_fuel results then OutOfFuel
  else match first_three_cut results with
       | Some p => Finished p
       | None => Panicked  (* expect("No cut with three edges found") *)
       end.


Definition part1 (rngs : nat -> nat -> nat) (order : list nat) (input : text) : run Z :=
  match parse input with
  | None => Panicked
  | Some graph => find_any (map (trial_result graph rngs) order)
  end.

(** No part 2 on the last day. *)
Definition part2 (input : text) : Z := 0.

(** A family of draw sequences, to name concrete runs. *)
Definition lcg (seed : N) (k : nat) : nat :=
  N.to_nat (N.modulo (N.shiftr ((seed * 1103515245 + N.of_nat k * 2654435761 + 12345)
                                * 2246822519) 7) 65536).

Local Open Scope string_scope.
Definition nl := Day01.nl.

(** The graph of the test [test_small] (its lines without indentation). *)
Definition small : text :=
  txt ("la: lb lc ld" ++ nl ++ "lb: lc ld rb" ++ nl ++ "lc: ld rc" ++ nl ++ "ld: rd"
       ++ nl ++ "le: la lb lc ld" ++ nl ++ "ra: rb rc rd" ++ nl ++ "rb: rc rd" ++ nl
       ++ "rc: rd" ++ nl ++ "re: ra rb rc rd").



End Day25.

(** ** The CLI harness ([main.rs], [utils/solution_import.rs]) *)
Module Harness.

(** [Solution = (u32, Box<SolutionFn>, Box<SolutionFn>)]: a day number and
    its two parts; a part returns its answer or panics ([None]). *)
Record Solution := mkSolution {
  day : Z;
  part1 : text -> option Z;
  part2 : text -> option Z
}.

(** Decimal digits of a non-negative number; [fuel] bounds the digit count. *)
Fixpoint decimal_go (fuel : nat) (n : Z) (acc : text) : text :=
  match fuel with
  | O => acc
  | S f =>
      let acc' := Z.to_N (48 + n mod 10) :: acc in
      if n <? 10 then acc' else decimal_go f (n / 10) acc'
  end.

Definition decimal (n : Z) : text := decimal_go (S (Z.to_nat (Z.log2 (Z.max n 1)))) n [].

(** [{:02}]: zero-padded to a width of at least two. *)
Definition pad_zeros (width : nat) (s : text) : text :=
  repeat 48%N (width - List.length s) ++ s.

(** [format!("inputs/day{:02}.txt", day)]. *)
Definition day_path (d : Z) : text :=
  (txt "inputs/day" ++ pad_zeros 2 (decimal d) ++ txt ".txt")%list.

(** The observable effects: the file read, the printed lines (the elapsed
    times are not modelled) and the calls of the parts. *)
Inductive event :=
| ReadFile (path : text)
| PrintDay (d : Z)
| CallPart (part : Z) (input : text)
| PrintPart (part : Z) (result : Z).

(** [run_solution_part]: the events and whether the part returned. *)
Definition run_solution_part (part : Z) (solution : text -> option Z) (input : text)
    : list event * bool :=
  match solution input with
  | Some result => ([CallPart part input; PrintPart part result], true)
  | None => ([CallPart part input], false)
  end.

(** [run_solution_day]; [fs] is the file system, [None] for a missing or
    unreadable file. The boolean says whether the run ended without panic. *)
Definition run_solution_day (fs : text -> option text) (solution : Solution)
    : list event * bool :=
  let path := day_path (day solution) in
  match fs path with
  | None => ([ReadFile path], false)  (* expect("Unable to read puzzle input file") *)
  | Some input =>
      let '(ev1, ok1) := run_solution_part 1 (part1 solution) input in
      if ok1 then
        let '(ev2, ok2) := run_solution_part 2 (part2 solution) input in
        ([ReadFile path; PrintDay (day solution)] ++ ev1 ++ ev2, ok2)
      else ([ReadFile path; PrintDay (day solution)] ++ ev1, false)
  end.

(** [solutions.iter().map(|(day, _, _)| day).max().unwrap()]. *)
Definition latest_day (solutions : list Solution) : option Z :=
  match map day solutions with
  | [] => None
  | d :: ds => Some (fold_left Z.max ds d)
  end.

(** The day selection of [main]; [args] includes the program name. *)
Definition select (solutions : list Solution) (args : list text) : option Solution :=
  latest <- latest_day solutions ;;
  let selected_day :=
    match nth_error args 1 with
    | Some s => match parse_u32 s with Some n => n | None => latest end
    | None => latest
    end in
  find (fun sol => day sol =? selected_day) solutions.

Definition main (solutions : list Solution) (args : list text) (fs : text -> option text)
    : list event * bool :=
  match select solutions args with
  | None => ([], false)  (* .unwrap() on the search of the selected day *)
  | Some solution => run_solution_day fs solution
  end.

(** The 25 solutions of the repository, with stand-in parts. *)
Definition listed_solutions : list Solution :=
  map (fun d => mkSolution (Z.of_nat d) (fun _ => Some 0) (fun _ => Some 0)) (seq 1 25).

End Harness.

(** ** Predicates used to state the properties *)

(** The value day 1 gives a line: the first and last decimal digit of the
    line as a two-digit number. *)
Definition first_last (line : text) : Z :=
  match filter is_digit10 line with
  | [] => 0
  | d :: ds => 10 * (Z.of_N d - 48) + (Z.of_N (last (d :: ds) d) - 48)
  end.

(** Whether [pat] occurs in [s]. *)
Fixpoint occurs (pat s : text) : bool :=
  match s with
  | [] => is_prefix pat []
  | _ :: s' => is_prefix pat s || occurs pat s'
  end.

(** The neighbours of a node in a day-25 graph, none for a node not in it. *)
Definition adj (g : Day25.Graph) (x : Day25.Node) : list Day25.Node :=
  match Day25.lookup x g with Some l => l | None => [] end.

(** The text of a day-20 module line: its type prefix, its name, [" -> "]
    and its outputs separated by [", "]. *)
Definition type_prefix (t : Day20.ModuleType) : text :=
  match t with
  | Day20.Broadcast => []
  | Day20.FlipFlop => [37%N]
  | Day20.Conjunction => [38%N]
  end.

Definition module_line (t : Day20.ModuleType) (nm o : text) (os : list text) : text :=
  (type_prefix t ++ nm ++ txt " -> " ++ o ++ flat_map (fun w => txt ", " ++ w) os)%list.

(** The nodes merged into the entries of a contracted day-25 graph. *)
Definition inner (e : Day25.Node * (list Day25.Node * list Day25.Node)) : list Day25.Node :=
  snd (snd e).

(** * Properties *)

(** ** Text lemmas *)

Lemma in_drop_while : forall p s c, In c (drop_while p s) -> In c s.
Proof.
  intros p s c; induction s as [|x s IH]; simpl; [tauto|].
  destruct (p x); simpl; tauto.
Qed.

Lemma in_trim : forall l c, In c (trim l) -> In c l.
Proof.
  unfold trim; intros l c H.
  rewrite <- in_rev in H; apply in_drop_while in H.
  rewrite <- in_rev in H; apply in_drop_while in H; exact H.
Qed.

Lemma in_strip_cr : forall cur c, In c (strip_cr cur) -> In c cur.
Proof.
  intros [|x r] c; unfold strip_cr; [tauto|].
  destruct (x =? 13)%N; intro H; rewrite <- in_rev in H; simpl in *; tauto.
Qed.

Lemma in_lines_go : forall s cur l c,
  In l (lines_go s cur) -> In c l -> In c s \/ In c cur.
Proof.
  induction s as [|x s IH]; intros cur l c Hl Hc; simpl in Hl.
  - destruct cur; simpl in Hl; [tauto|].
    destruct Hl as [<-|[]]; right; rewrite in_rev; exact Hc.
  - destruct (x =? 10)%N.
    + destruct Hl as [<-|Hl].
      * right; apply in_strip_cr; exact Hc.
      * destruct (IH [] l c Hl Hc) as [H|[]]; left; simpl; tauto.
    + destruct (IH (x :: cur) l c Hl Hc) as [H|[H|H]]; simpl; auto.
Qed.

Lemma in_lines : forall s l c, In l (lines s) -> In c l -> In c s.
Proof.
  intros s l c Hl Hc; destruct (in_lines_go s [] l c Hl Hc) as [H|[]]; exact H.
Qed.

Lemma filter_all_false : forall {A} (p : A -> bool) l,
  (forall x, In x l -> p x = false) -> filter p l = [].
Proof.
  intros A p l H; induction l as [|x l IH]; simpl; [reflexivity|].
  rewrite (H x (or_introl eq_refl)); apply IH; intros y Hy; apply H; right; exact Hy.
Qed.

Lemma sum_opt_none : forall xs, In None xs -> sum_opt xs = None.
Proof.
  induction xs as [|x xs IH]; simpl; [tauto|].
  intros [Hx|H]; [subst x; reflexivity|].
  destruct x; simpl; [rewrite (IH H)|]; reflexivity.
Qed.

(** ** Day 1 *)

(** Claim C8: a line of the input (in the sense of [str::lines]) without any
    decimal digit makes day 1 part 1 panic, at the [unwrap] of its first
    digit. *)
Theorem day01_part1_panics_on_digitless_line : forall input line,
  In line (lines input) ->
  (forall c, In c line -> is_digit10 c = false) ->
  Day01.part1 input = None.
Proof.
  intros input line Hin Hnd.
  unfold Day01.part1, Day01.sum_numbers.
  apply sum_opt_none, in_map_iff.
  exists line; split; [|exact Hin].
  unfold Day01.line_number.
  rewrite filter_all_false; [reflexivity|].
  intros c Hc; apply Hnd, in_trim; exact Hc.
Qed.

Lemma day01_part1_panics_on_digitless_line_witness :
  In (txt "abc") (lines (txt "abc")) /\ Day01.part1 (txt "abc") = None.
Proof.
  split; [left; reflexivity|].
  apply (day01_part1_panics_on_digitless_line (txt "abc") (txt "abc")).
  - left; reflexivity.
  - intros c Hc; simpl in Hc.
    destruct Hc as [<-|[<-|[<-|[]]]]; reflexivity.
Defined.

(** ** Day 6 *)

(** Claim C4: on the published example, day 6 part 1 returns 288 and part 2
    returns 71503; part 2 is part 1 applied to the input without its spaces. *)
Theorem day06_example :
  Day06.part1 Day06.example = Some 288 /\
  Day06.part2 Day06.example = Some 71503 /\
  (forall input, Day06.part2 input = Day06.part1 (replace (txt " ") [] input)).
Proof.
  split; [vm_compute; reflexivity|].
  split; [vm_compute; reflexivity|].
  intros input; reflexivity.
Qed.

(** ** Day 25, part 2 *)

(** Claim C10: day 25 part 2 returns 0 whatever its input. *)
Theorem day25_part2_zero : forall input, Day25.part2 input = 0.
Proof. intros input; reflexivity. Qed.


(** ** Day 20 *)

Section Day20Props.
Import Day20.

(** The parser reads [is_alphabetic] only at chars of its input. *)
Lemma module_p_ext : forall f g s,
  (forall c, In c s -> f c = g c) -> module_p f s = module_p g s.
Proof.
  intros f g [|c s] H; unfold module_p, module_type_p; [reflexivity|].
  rewrite (H c (or_introl eq_refl)); reflexivity.
Qed.

Lemma parse_modules_ext : forall f g ls,
  (forall l c, In l ls -> In c l -> f c = g c) ->
  parse_modules f ls = parse_modules g ls.
Proof.
  intros f g ls H; induction ls as [|l ls IH]; simpl; [reflexivity|].
  rewrite (module_p_ext f g (trim l)).
  - rewrite IH; [reflexivity|].
    intros l' c Hl Hc; apply (H l'); [right|]; assumption.
  - intros c Hc; apply (H l); [left; reflexivity|apply in_trim; exact Hc].
Qed.

Lemma circuit_ext : forall f g input,
  (forall c, In c input -> f c = g c) -> circuit f input = circuit g input.
Proof.
  intros f g input H; unfold circuit.
  rewrite (parse_modules_ext f g); [reflexivity|].
  intros l c Hl Hc; apply H, (in_lines input l c Hl Hc).
Qed.

(** A signal loop that ends within a budget ends the same way with more. *)
Lemma drain_mono : forall fuel c q lo hi r,
  drain fuel c q lo hi = Finished r ->
  forall fuel', (fuel <= fuel')%nat -> drain fuel' c q lo hi = Finished r.
Proof.
  induction fuel as [|fuel IH]; intros c q lo hi r H fuel' Hle.
  - destruct q; [destruct fuel'; exact H|simpl in H; discriminate H].
  - destruct fuel' as [|fuel']; [lia|].
    destruct q as [|[[from to] v] q]; [exact H|].
    cbn [drain] in H |- *.
    destruct (process_signal c (from, to, v)) as [[c' [nv|]]|]; [| |discriminate].
    + destruct (get to c'); [|discriminate].
      apply (IH _ _ _ _ _ H); lia.
    + apply (IH _ _ _ _ _ H); lia.
Qed.

Lemma press_mono : forall n fuel c lo hi r,
  press n fuel c lo hi = Finished r ->
  forall fuel', (fuel <= fuel')%nat -> press n fuel' c lo hi = Finished r.
Proof.
  induction n as [|n IH]; intros fuel c lo hi r H fuel' Hle; simpl in *; [exact H|].
  destruct (drain fuel c [button_signal] lo hi) as [[[c' lo'] hi']| |] eqn:E;
    try discriminate.
  rewrite (drain_mono fuel c [button_signal] lo hi _ E fuel' Hle).
  apply (IH fuel); assumption.
Qed.

Lemma example_ascii : forall c, In c example -> (c < 128)%N.
Proof.
  intros c Hc.
  assert (Hall : forallb (fun x => (x <? 128)%N) example = true)
    by (vm_compute; reflexivity).
  rewrite forallb_forall in Hall; apply N.ltb_lt, Hall, Hc.
Qed.

(** The example, evaluated with 100 steps per press. *)
Lemma example_counts :
  match circuit ascii_alphabetic example with
  | Some c =>
      match press 1000 100 c 0 0 with
      | Finished (_, low, high) => low = 4250 /\ high = 2750
      | _ => False
      end
  | None => False
  end.
Proof. vm_compute; split; reflexivity. Qed.

End Day20Props.

(** Claim C5: on the published example, day 20 part 1 returns 11687500, the
    product of the 4250 low and the 2750 high pulses counted over the 1000
    button presses. [is_alphabetic] is Rust's [char::is_alphabetic]; the
    example is ASCII, so only its ASCII values matter. The signal loop ends
    within 100 steps per press. *)
Theorem day20_part1_example : forall is_alphabetic,
  (forall c, (c < 128)%N -> is_alphabetic c = Day20.ascii_alphabetic c) ->
  exists c circuit',
    Day20.circuit is_alphabetic Day20.example = Some c /\
    forall fuel, (100 <= fuel)%nat ->
      Day20.press 1000 fuel c 0 0 = Finished (circuit', 4250, 2750) /\
      Day20.part1 is_alphabetic fuel Day20.example = Finished 11687500.
Proof.
  intros is_alphabetic Hascii.
  assert (Hc : Day20.circuit is_alphabetic Day20.example
               = Day20.circuit Day20.ascii_alphabetic Day20.example).
  { apply circuit_ext; intros c Hin; apply Hascii, example_ascii, Hin. }
  pose proof example_counts as X.
  destruct (Day20.circuit Day20.ascii_alphabetic Day20.example) as [c|] eqn:E;
    [|contradiction].
  destruct (Day20.press 1000 100 c 0 0) as [[[c' lo] hi]| |] eqn:P; try contradiction.
  destruct X as [-> ->].
  exists c, c'; split; [exact Hc|].
  intros fuel Hfuel.
  assert (Pf := press_mono 1000 100 c 0 0 _ P fuel Hfuel).
  split; [exact Pf|].
  unfold Day20.part1; rewrite Hc, Pf; reflexivity.
Qed.

Lemma day20_part1_example_witness :
  exists c circuit',
    Day20.circuit Day20.ascii_alphabetic Day20.example = Some c /\
    forall fuel, (100 <= fuel)%nat ->
      Day20.press 1000 fuel c 0 0 = Finished (circuit', 4250, 2750) /\
      Day20.part1 Day20.ascii_alphabetic fuel Day20.example = Finished 11687500.
Proof.
  apply (day20_part1_example Day20.ascii_alphabetic).
  intros c _; reflexivity.
Defined.

(** ** Day 25 *)

Section Day25Props.
Import Day25.











End Day25Props.







(** ** The CLI harness *)

Lemma text_eqb_eq : forall a b, text_eqb a b = true -> a = b.
Proof.
  induction a as [|x a IH]; intros [|y b] H; simpl in H; try discriminate; [reflexivity|].
  apply andb_true_iff in H; destruct H as [Hxy Hab].
  apply N.eqb_eq in Hxy; subst y; f_equal; apply IH, Hab.
Qed.

Section HarnessProps.
Import Harness.

Lemma fold_max_spec : forall ds d,
  In (fold_left Z.max ds d) (d :: ds) /\
  forall x, In x (d :: ds) -> x <= fold_left Z.max ds d.
Proof.
  induction ds as [|e ds IH]; intros d; simpl.
  - split; [left; reflexivity|intros x [<-|[]]; lia].
  - destruct (IH (Z.max d e)) as [Hin Hge]; split.
    + destruct Hin as [Hm|Hin]; [|right; right; exact Hin].
      rewrite <- Hm.
      destruct (Z.max_spec d e) as [[_ E]|[_ E]]; rewrite E;
        [right; left|left]; reflexivity.
    + assert (Hm : Z.max d e <= fold_left Z.max ds (Z.max d e)) by (apply Hge; left; reflexivity).
      intros x [<-|[<-|Hx]]; [lia|lia|apply Hge; right; exact Hx].
Qed.

Lemma find_day_some : forall sols n,
  In n (map day sols) ->
  exists sol, find (fun s => day s =? n) sols = Some sol /\ In sol sols /\ day sol = n.
Proof.
  intros sols n H.
  destruct (find (fun s => day s =? n) sols) as [sol|] eqn:E.
  - apply find_some in E; destruct E as [Hin Hd].
    exists sol; split; [reflexivity|split; [exact Hin|apply Z.eqb_eq, Hd]].
  - apply in_map_iff in H; destruct H as [s [Hs Hin]].
    pose proof (find_none _ _ E s Hin) as F; simpl in F.
    rewrite Hs, Z.eqb_refl in F; discriminate.
Qed.

Lemma find_day_none : forall sols n,
  ~ In n (map day sols) -> find (fun s => day s =? n) sols = None.
Proof.
  induction sols as [|s sols IH]; intros n H; simpl; [reflexivity|].
  destruct (day s =? n) eqn:E.
  - apply Z.eqb_eq in E; exfalso; apply H; left; exact E.
  - apply IH; intro H'; apply H; right; exact H'.
Qed.

(** Without a usable argument, [main] selects the highest day present. *)
Lemma select_latest : forall sols args,
  sols <> [] ->
  (forall s, nth_error args 1 = Some s -> parse_u32 s = None) ->
  exists sol, select sols args = Some sol /\ In sol sols /\
    latest_day sols = Some (day sol) /\ forall s, In s sols -> day s <= day sol.
Proof.
  intros sols args Hne Hargs.
  destruct sols as [|s0 rest]; [contradiction|].
  destruct (fold_max_spec (map day rest) (day s0)) as [Hin Hge].
  assert (Hsel : select (s0 :: rest) args =
                 find (fun s => day s =? fold_left Z.max (map day rest) (day s0)) (s0 :: rest)).
  { unfold select, latest_day; simpl map; cbn [obind].
    destruct (nth_error args 1) as [a|] eqn:E; [rewrite (Hargs a eq_refl)|]; reflexivity. }
  destruct (find_day_some (s0 :: rest) (fold_left Z.max (map day rest) (day s0)) Hin)
    as (sol & Hf & Hsol & Hd).
  exists sol; split; [rewrite Hsel; exact Hf|split; [exact Hsol|split]].
  - unfold latest_day; simpl map; rewrite Hd; reflexivity.
  - intros s Hs; rewrite Hd; apply Hge, (in_map day (s0 :: rest)), Hs.
Qed.

Lemma select_argument : forall sols prog arg rest n,
  sols <> [] -> parse_u32 arg = Some n ->
  select sols (prog :: arg :: rest) = find (fun s => day s =? n) sols.
Proof.
  intros sols prog arg rest n Hne Hn.
  destruct sols as [|s0 sols]; [contradiction|].
  unfold select, latest_day; simpl map; cbn [obind nth_error]; rewrite Hn; reflexivity.
Qed.

End HarnessProps.

(** Claim C6: with no command-line argument, [main] selects the solution of
    the highest day present; with a numeric argument [N] naming a present day,
    it selects day [N]. *)
Theorem harness_selects_day : forall solutions,
  solutions <> [] ->
  (forall args, (List.length args <= 1)%nat ->
     exists sol, Harness.select solutions args = Some sol /\ In sol solutions /\
       Harness.latest_day solutions = Some (Harness.day sol) /\
       forall s, In s solutions -> Harness.day s <= Harness.day sol) /\
  (forall prog arg rest n,
     parse_u32 arg = Some n -> In n (map Harness.day solutions) ->
     exists sol, Harness.select solutions (prog :: arg :: rest) = Some sol /\
       In sol solutions /\ Harness.day sol = n).
Proof.
  intros solutions Hne; split.
  - intros args Hlen; apply select_latest; [exact Hne|].
    intros s Hs.
    assert (Hlt : nth_error args 1 <> None) by congruence.
    apply nth_error_Some in Hlt; lia.
  - intros prog arg rest n Hn Hin.
    rewrite (select_argument solutions prog arg rest n Hne Hn).
    exact (find_day_some solutions n Hin).
Qed.

Lemma harness_selects_day_witness :
  Harness.select Harness.listed_solutions [txt "aoc"] = Some (nth 24 Harness.listed_solutions (Harness.mkSolution 0 (fun _ => None) (fun _ => None))) /\
  exists sol, Harness.select Harness.listed_solutions [txt "aoc"] = Some sol /\ In sol Harness.listed_solutions /\
    Harness.latest_day Harness.listed_solutions = Some (Harness.day sol) /\
    forall s, In s Harness.listed_solutions -> Harness.day s <= Harness.day sol.
Proof.
  split; [reflexivity|].
  apply (proj1 (harness_selects_day Harness.listed_solutions ltac:(discriminate))).
  simpl; lia.
Defined.

(** Claim C9: a first argument that does not parse as a [u32] is ignored and
    the highest day runs; one that parses to a day without a solution makes
    [main] panic before any solution runs (no event at all). *)
Theorem harness_bad_argument : forall solutions prog arg rest,
  solutions <> [] ->
  (parse_u32 arg = None ->
   exists sol, Harness.select solutions (prog :: arg :: rest) = Some sol /\
     Harness.latest_day solutions = Some (Harness.day sol) /\
     (forall s, In s solutions -> Harness.day s <= Harness.day sol) /\
     forall fs, Harness.main solutions (prog :: arg :: rest) fs = Harness.run_solution_day fs sol) /\
  (forall n, parse_u32 arg = Some n -> ~ In n (map Harness.day solutions) ->
   forall fs, Harness.main solutions (prog :: arg :: rest) fs = ([], false)).
Proof.
  intros solutions prog arg rest Hne; split.
  - intros Hbad.
    destruct (select_latest solutions (prog :: arg :: rest) Hne) as (sol & Hs & _ & Hl & Hge).
    { intros s Hs; simpl in Hs; injection Hs as <-; exact Hbad. }
    exists sol; split; [exact Hs|split; [exact Hl|split; [exact Hge|]]].
    intros fs; unfold Harness.main; rewrite Hs; reflexivity.
  - intros n Hn Hnot fs; unfold Harness.main.
    rewrite (select_argument solutions prog arg rest n Hne Hn), find_day_none by exact Hnot.
    reflexivity.
Qed.

Lemma harness_bad_argument_witness :
  Harness.main Harness.listed_solutions [txt "aoc"; txt "99"] (fun _ => None) = ([], false).
Proof.
  apply (proj2 (harness_bad_argument Harness.listed_solutions (txt "aoc") (txt "99") []
                  ltac:(discriminate)) 99).
  - reflexivity.
  - simpl; intuition discriminate.
Defined.

(** Claim C7: the harness reads exactly the file [inputs/dayNN.txt], [NN]
    being the day zero-padded to two digits, and runs part 1 and then part 2
    on the content of that file (part 2 after part 1 returned). *)
Theorem harness_reads_day_file :
  (forall d, 0 <= d < 100 ->
     Harness.day_path d =
       txt "inputs/day" ++ [Z.to_N (48 + d / 10); Z.to_N (48 + d mod 10)] ++ txt ".txt") /\
  (forall fs sol, fs (Harness.day_path (Harness.day sol)) = None ->
     Harness.run_solution_day fs sol =
       ([Harness.ReadFile (Harness.day_path (Harness.day sol))], false)) /\
  (forall fs sol input, fs (Harness.day_path (Harness.day sol)) = Some input ->
     let p := Harness.day_path (Harness.day sol) in
     Harness.run_solution_day fs sol =
       match Harness.part1 sol input with
       | None => ([Harness.ReadFile p; Harness.PrintDay (Harness.day sol);
                   Harness.CallPart 1 input], false)
       | Some r1 =>
           match Harness.part2 sol input with
           | None => ([Harness.ReadFile p; Harness.PrintDay (Harness.day sol);
                       Harness.CallPart 1 input; Harness.PrintPart 1 r1;
                       Harness.CallPart 2 input], false)
           | Some r2 => ([Harness.ReadFile p; Harness.PrintDay (Harness.day sol);
                          Harness.CallPart 1 input; Harness.PrintPart 1 r1;
                          Harness.CallPart 2 input; Harness.PrintPart 2 r2], true)
           end
       end).
Proof.
  split; [|split].
  - intros d Hd.
    assert (Hall : forallb (fun n =>
              text_eqb (Harness.day_path (Z.of_nat n))
                (txt "inputs/day" ++ [Z.to_N (48 + Z.of_nat n / 10);
                                      Z.to_N (48 + Z.of_nat n mod 10)] ++ txt ".txt"))
              (seq 0 100) = true) by (vm_compute; reflexivity).
    rewrite forallb_forall in Hall.
    rewrite <- (Z2Nat.id d) by lia.
    apply text_eqb_eq, Hall, in_seq; lia.
  - intros fs sol H; unfold Harness.run_solution_day; rewrite H; reflexivity.
  - intros fs sol input H p; subst p; unfold Harness.run_solution_day, Harness.run_solution_part.
    rewrite H.
    destruct (Harness.part1 sol input); [|reflexivity].
    destruct (Harness.part2 sol input); reflexivity.
Qed.

(** * Further properties of the code *)

(** ** Day 1 *)

Lemma whitespace_not_digit : forall c, is_whitespace c = true -> is_digit10 c = false.
Proof.
  intros c H; apply not_true_is_false; intro D.
  unfold is_digit10 in D; apply andb_true_iff in D; destruct D as [D1 D2].
  apply N.leb_le in D1; apply N.leb_le in D2.
  unfold is_whitespace in H.
  repeat match goal with
  | H : _ || _ = true |- _ => apply orb_true_iff in H; destruct H as [H|H]
  | H : _ && _ = true |- _ => apply andb_true_iff in H; destruct H
  | H : (_ <=? _)%N = true |- _ => apply N.leb_le in H
  | H : (_ =? _)%N = true |- _ => apply N.eqb_eq in H
  end; lia.
Qed.

Lemma filter_drop_while : forall (p q : rchar -> bool) s,
  (forall c, p c = true -> q c = false) -> filter q (drop_while p s) = filter q s.
Proof.
  intros p q s H; induction s as [|c s IH]; simpl; [reflexivity|].
  destruct (p c) eqn:E; simpl; [rewrite (H c E); exact IH|reflexivity].
Qed.

Lemma filter_rev_text : forall (q : rchar -> bool) s, filter q (rev s) = rev (filter q s).
Proof.
  intros q s; induction s as [|c s IH]; simpl; [reflexivity|].
  rewrite filter_app, IH; simpl; destruct (q c); simpl; [reflexivity|apply app_nil_r].
Qed.

Lemma filter_digits_trim : forall l, filter is_digit10 (trim l) = filter is_digit10 l.
Proof.
  intros l; unfold trim.
  rewrite filter_rev_text, filter_drop_while by exact whitespace_not_digit.
  rewrite filter_rev_text, rev_involutive, filter_drop_while by exact whitespace_not_digit.
  reflexivity.
Qed.

Lemma last_in_cons : forall {A} (x : A) l d, In (last (x :: l) d) (x :: l).
Proof.
  intros A x l; revert x; induction l as [|y l IH]; intros x d; [left; reflexivity|].
  change (In (last (y :: l) d) (x :: y :: l)); right; apply IH.
Qed.

Lemma parse_i64_two_digits : forall d e, is_digit10 d = true -> is_digit10 e = true ->
  parse_i64 [d; e] = Some (10 * (Z.of_N d - 48) + (Z.of_N e - 48)).
Proof.
  intros d e Hd He.
  assert (Hd' := Hd); assert (He' := He).
  unfold is_digit10 in Hd', He'; apply andb_true_iff in Hd', He'.
  destruct Hd' as [Hd1 Hd2], He' as [He1 He2].
  apply N.leb_le in Hd1, Hd2, He1, He2.
  unfold parse_i64, parse_int.
  replace (d =? 43)%N with false by (symmetry; apply N.eqb_neq; lia).
  replace (d =? 45)%N with false by (symmetry; apply N.eqb_neq; lia).
  cbn [andb digits_value]; rewrite Hd, He; cbn [digits_value obind].
  rewrite !N2Z.inj_sub by lia.
  match goal with |- (if ?b then _ else _) = _ => replace b with true end;
    [f_equal; lia|].
  symmetry; apply andb_true_iff; split; apply Z.leb_le; lia.
Qed.

Lemma line_number_digits : forall line d ds,
  filter is_digit10 line = d :: ds ->
  Day01.line_number line =
    Some (10 * (Z.of_N d - 48) + (Z.of_N (last (d :: ds) d) - 48)).
Proof.
  intros line d ds H.
  unfold Day01.line_number; rewrite filter_digits_trim, H.
  apply parse_i64_two_digits.
  - assert (Hin : In d (filter is_digit10 line)) by (rewrite H; left; reflexivity).
    apply filter_In in Hin; apply Hin.
  - assert (Hin : In (last (d :: ds) d) (filter is_digit10 line))
      by (rewrite H; apply last_in_cons).
    apply filter_In in Hin; apply Hin.
Qed.

(** Day 1: the number of a line is the two-digit number made of the first and
    the last decimal digit of the line; a line with a single digit counts it
    twice. *)
Theorem day01_line_number_first_last : forall line d ds,
  filter is_digit10 line = d :: ds ->
  Day01.line_number line =
    Some (10 * (Z.of_N d - 48) + (Z.of_N (last (d :: ds) d) - 48)).
Proof.
  exact line_number_digits.
Qed.

Lemma day01_line_number_first_last_witness :
  filter is_digit10 (txt "a1b2c3") = [49; 50; 51]%N /\
  Day01.line_number (txt "a1b2c3") = Some 13.
Proof.
  split; [reflexivity|].
  rewrite (day01_line_number_first_last (txt "a1b2c3") 49%N [50; 51]%N) by reflexivity.
  reflexivity.
Defined.

Lemma part1_first_last_sum : forall input,
  Forall (fun l => filter is_digit10 l <> []) (lines input) ->
  Day01.part1 input = Some (fold_right Z.add 0 (map first_last (lines input))).
Proof.
  intros input; unfold Day01.part1, Day01.sum_numbers.
  induction (lines input) as [|l ls IH]; intros H; [reflexivity|].
  inversion H as [|? ? Hl Hls]; subst.
  cbn [map sum_opt fold_right]; rewrite (IH Hls).
  unfold first_last; destruct (filter is_digit10 l) as [|d ds] eqn:E; [contradiction|].
  rewrite (line_number_digits l d ds E); reflexivity.
Qed.

(** Claim C3: on the published examples, day 1 part 1 returns 142 and part 2
    returns 281. Part 1 sums, over the lines, the two-digit number made of the
    first and last digit of the line; part 2 applies part 1 to the input after
    rewriting the spelled-out digits "one" to "nine", the i-th word into a form
    that holds the digit i as its only digit (and keeps the word's first and
    last letter). *)
Theorem day01_examples :
  (Day01.part1 Day01.example1 = Some 142 /\
   Day01.part2 Day01.example2 = Some 281) /\
  (forall input,
     Forall (fun l => filter is_digit10 l <> []) (lines input) ->
     Day01.part1 input = Some (fold_right Z.add 0 (map first_last (lines input)))) /\
  (forall line d ds,
     filter is_digit10 line = d :: ds ->
     first_last line = 10 * (Z.of_N d - 48) + (Z.of_N (last (d :: ds) d) - 48)) /\
  (forall input, Day01.part2 input =
     Day01.part1 (fold_left (fun s '(search, repl) => replace (txt search) (txt repl) s)
                   Day01.replacements input)) /\
  (forall i search repl, nth_error Day01.replacements i = Some (search, repl) ->
     filter is_digit10 (txt repl) = [N.of_nat (49 + i)] /\
     hd 0%N (txt repl) = hd 0%N (txt search) /\
     last (txt repl) 0%N = last (txt search) 0%N).
Proof.
  split; [split; vm_compute; reflexivity|].
  split; [exact part1_first_last_sum|].
  split; [intros line d ds H; unfold first_last; rewrite H; reflexivity|].
  split; [intros input; reflexivity|].
  intros i search repl H.
  do 9 (destruct i as [|i]; [injection H as <- <-; vm_compute; repeat split|]).
  destruct i; discriminate H.
Qed.

Lemma lines_go_app : forall a b cur,
  lines_go (a ++ 10%N :: b) cur = lines_go (a ++ [10%N]) cur ++ lines_go b [].
Proof.
  induction a as [|x a IH]; intros b cur; simpl; [reflexivity|].
  destruct (x =? 10)%N; [rewrite IH; reflexivity|apply IH].
Qed.

Lemma sum_opt_app : forall xs ys,
  sum_opt (xs ++ ys) = (x <- sum_opt xs ;; y <- sum_opt ys ;; Some (x + y)).
Proof.
  induction xs as [|o xs IH]; intros ys; simpl.
  - destruct (sum_opt ys); reflexivity.
  - rewrite IH; destruct o as [v|]; simpl; [|reflexivity].
    destruct (sum_opt xs); simpl; [|reflexivity].
    destruct (sum_opt ys); simpl; [rewrite Z.add_assoc|]; reflexivity.
Qed.

(** Day 1: part 1 adds up over inputs joined at a line break: on
    [a ++ "\n" ++ b] it returns the sum of its results on [a ++ "\n"] and on
    [b], and it panics when one of them panics. *)
Theorem day01_part1_concat : forall a b,
  Day01.part1 (a ++ 10%N :: b) =
    (x <- Day01.part1 (a ++ [10%N]) ;; y <- Day01.part1 b ;; Some (x + y)).
Proof.
  intros a b; unfold Day01.part1, Day01.sum_numbers, lines.
  rewrite lines_go_app, map_app; apply sum_opt_app.
Qed.

Lemma is_prefix_app : forall p r, is_prefix p (p ++ r) = true.
Proof.
  induction p as [|a p IH]; intros r; simpl; [reflexivity|].
  rewrite N.eqb_refl, IH; reflexivity.
Qed.

Lemma is_prefix_true : forall p s, is_prefix p s = true -> exists r, s = p ++ r.
Proof.
  induction p as [|a p IH]; intros s H; [exists s; reflexivity|].
  destruct s as [|b s]; simpl in H; [discriminate|].
  apply andb_true_iff in H; destruct H as [Hab H]; apply N.eqb_eq in Hab; subst b.
  destruct (IH s H) as [r ->]; exists r; reflexivity.
Qed.

Lemma occurs_prefix : forall pat s, is_prefix pat s = true -> occurs pat s = true.
Proof. intros pat [|c s] H; cbn [occurs]; rewrite H; reflexivity. Qed.

Lemma occurs_false : forall pat pre post, occurs pat (pre ++ pat ++ post) = false -> False.
Proof.
  intros pat pre post; induction pre as [|c pre IH]; intros H.
  - simpl app in H; rewrite occurs_prefix in H; [discriminate|apply is_prefix_app].
  - cbn [app occurs] in H; apply orb_false_iff in H; apply IH, H.
Qed.

Lemma replace_go_absent : forall pat rep s,
  (forall pre post, s <> pre ++ pat ++ post) -> replace_go pat rep O s = s.
Proof.
  intros pat rep s; induction s as [|c s IH]; intros H; cbn [replace_go]; [reflexivity|].
  destruct (is_prefix pat (c :: s)) eqn:E.
  - destruct (is_prefix_true _ _ E) as [r Er]; exfalso; apply (H [] r); exact Er.
  - f_equal; apply IH; intros pre post Es; apply (H (c :: pre) post); rewrite Es; reflexivity.
Qed.

(** Day 1: on an input in which no digit word ("one" to "nine") occurs,
    part 2 returns what part 1 returns. *)
Theorem day01_part2_no_words : forall input,
  (forall search repl, In (search, repl) Day01.replacements ->
     forall pre post, input <> pre ++ txt search ++ post) ->
  Day01.part2 input = Day01.part1 input.
Proof.
  intros input H.
  assert (Hf : forall reps, (forall search repl, In (search, repl) reps ->
     forall pre post, input <> pre ++ txt search ++ post) ->
     fold_left (fun s '(search, repl) => replace (txt search) (txt repl) s) reps input = input).
  { induction reps as [|[search repl] reps IH]; intros Hr; simpl; [reflexivity|].
    unfold replace; rewrite replace_go_absent.
    - apply IH; intros search' repl' Hin; apply (Hr search' repl'); right; exact Hin.
    - apply (Hr search repl); left; reflexivity. }
  unfold Day01.part2; cbv zeta; rewrite (Hf _ H); reflexivity.
Qed.

Lemma day01_part2_no_words_witness :
  Day01.part2 (txt "x1abc2y") = Day01.part1 (txt "x1abc2y").
Proof.
  apply day01_part2_no_words.
  intros search repl Hin pre post E.
  apply (occurs_false (txt search) pre post); rewrite <- E.
  simpl in Hin; repeat destruct Hin as [Hin|Hin]; try contradiction;
    injection Hin as <- <-; reflexivity.
Defined.

(** ** Day 6 *)

Lemma ways_go_acc : forall T D t n w,
  Day06.ways_go T D t n w = w + Day06.ways_go T D t n 0.
Proof.
  intros T D t n; revert t; induction n as [|n IH]; intros t w; cbn [Day06.ways_go]; [lia|].
  destruct ((T - t) * t >? D); [rewrite (IH _ (w + 1)), (IH _ 1)|rewrite (IH _ w)]; lia.
Qed.

Lemma ways_go_bounds : forall T D t n, 0 <= Day06.ways_go T D t n 0 <= Z.of_nat n.
Proof.
  intros T D t n; revert t; induction n as [|n IH]; intros t; cbn [Day06.ways_go]; [lia|].
  rewrite ways_go_acc; specialize (IH (t + 1)); destruct ((T - t) * t >? D); lia.
Qed.

Lemma ways_go_all : forall T D t n,
  (forall s, t <= s < t + Z.of_nat n -> (T - s) * s > D) ->
  Day06.ways_go T D t n 0 = Z.of_nat n.
Proof.
  intros T D t n; revert t; induction n as [|n IH]; intros t H; cbn [Day06.ways_go];
    [reflexivity|].
  rewrite ways_go_acc, IH by (intros s Hs; apply H; lia).
  assert (Ht := H t ltac:(lia)).
  destruct (Z.gtb_spec ((T - t) * t) D); lia.
Qed.

Lemma ways_go_none : forall T D t n,
  (forall s, t <= s < t + Z.of_nat n -> (T - s) * s <= D) ->
  Day06.ways_go T D t n 0 = 0.
Proof.
  intros T D t n; revert t; induction n as [|n IH]; intros t H; cbn [Day06.ways_go];
    [reflexivity|].
  rewrite ways_go_acc, IH by (intros s Hs; apply H; lia).
  assert (Ht := H t ltac:(lia)).
  destruct (Z.gtb_spec ((T - t) * t) D); lia.
Qed.

Lemma ways_go_mono : forall T D1 D2 t n, D1 <= D2 ->
  Day06.ways_go T D2 t n 0 <= Day06.ways_go T D1 t n 0.
Proof.
  intros T D1 D2 t n Hd; revert t; induction n as [|n IH]; intros t; cbn [Day06.ways_go];
    [lia|].
  rewrite (ways_go_acc T D2), (ways_go_acc T D1); specialize (IH (t + 1)).
  destruct (Z.gtb_spec ((T - t) * t) D2), (Z.gtb_spec ((T - t) * t) D1); lia.
Qed.

(** Day 6: the number of winning hold times of a race is at least zero and at
    most the race time (zero for a race time that is not positive). *)
Theorem day06_ways_bounds : forall time record,
  0 <= Day06.ways_to_win (time, record) <= Z.max time 0.
Proof.
  intros time record; unfold Day06.ways_to_win.
  pose proof (ways_go_bounds time record 0 (Z.to_nat time)); lia.
Qed.

(** Day 6: in a race of positive time, every hold time wins exactly when the
    record distance is negative; holding for 0 ms covers no distance. The
    race time is at most [2^32], so that no distance [(time - t) * t], at most
    [time^2 / 4], overflows the source's [i64]. *)
Theorem day06_ways_all_win : forall time record,
  0 < time -> time <= 2 ^ 32 ->
  (Day06.ways_to_win (time, record) = time <-> record < 0).
Proof.
  intros time record Ht _; unfold Day06.ways_to_win.
  split; intros H.
  - destruct (Z.to_nat time) as [|n] eqn:E; [lia|].
    cbn [Day06.ways_go] in H; rewrite ways_go_acc in H.
    pose proof (ways_go_bounds time record (0 + 1) n).
    destruct (Z.gtb_spec ((time - 0) * 0) record); lia.
  - rewrite ways_go_all; [lia|].
    intros s Hs; nia.
Qed.

Lemma day06_ways_all_win_witness :
  Day06.ways_to_win (7, -1) = 7 /\ Day06.ways_to_win (7, 0) <> 7.
Proof.
  split.
  - apply (proj2 (day06_ways_all_win 7 (-1) ltac:(lia) ltac:(lia))); lia.
  - intro H; apply (day06_ways_all_win 7 0 ltac:(lia) ltac:(lia)) in H; lia.
Defined.

(** Day 6: a record of at least a quarter of the square of the race time
    cannot be beaten: no hold time wins. *)
Theorem day06_ways_unbeatable : forall time record,
  time * time <= 4 * record -> Day06.ways_to_win (time, record) = 0.
Proof.
  intros time record H; unfold Day06.ways_to_win.
  apply ways_go_none; intros s Hs.
  clear Hs; pose proof (Z.square_nonneg (time - 2 * s)) as Hsq.
  nia.
Qed.

Lemma day06_ways_unbeatable_witness :
  7 * 7 <= 4 * 13 /\ Day06.ways_to_win (7, 13) = 0.
Proof.
  split; [lia|apply day06_ways_unbeatable; lia].
Defined.

(** Day 6: raising the record never increases the number of winning hold
    times. *)
Theorem day06_ways_antitone : forall time record1 record2,
  record1 <= record2 ->
  Day06.ways_to_win (time, record2) <= Day06.ways_to_win (time, record1).
Proof.
  intros time r1 r2 H; unfold Day06.ways_to_win; apply ways_go_mono, H.
Qed.

Lemma day06_ways_antitone_witness :
  Day06.ways_to_win (30, 250) <= Day06.ways_to_win (30, 200).
Proof. apply day06_ways_antitone; lia. Defined.

(** Day 6: part 1 panics on an input of fewer than two lines: it needs a line
    of times and a line of distances. *)
Theorem day06_part1_needs_two_lines : forall input,
  (List.length (lines input) < 2)%nat -> Day06.part1 input = None.
Proof.
  intros input H; unfold Day06.part1.
  destruct (lines input) as [|l [|l2 ls]]; simpl in *; [reflexivity|reflexivity|lia].
Qed.

Lemma day06_part1_needs_two_lines_witness :
  Day06.part1 (txt "Time: 7 15 30") = None.
Proof. apply day06_part1_needs_two_lines; vm_compute; lia. Defined.

(** ** Day 20 *)

Lemma text_eqb_refl : forall a, text_eqb a a = true.
Proof. induction a as [|x a IH]; simpl; [reflexivity|]; rewrite N.eqb_refl; exact IH. Qed.

Section Day20Extra.
Import Day20.

Lemma get_insert_same : forall k m c, get k (insert k m c) = Some m.
Proof.
  intros k m c; induction c as [|[k' m'] c IH]; simpl.
  - rewrite text_eqb_refl; reflexivity.
  - destruct (text_eqb k k') eqn:E; simpl; rewrite E; [reflexivity|exact IH].
Qed.

Lemma get_insert_other : forall k k' m c,
  text_eqb k' k = false -> get k' (insert k m c) = get k' c.
Proof.
  intros k k' m c H; induction c as [|[k'' m''] c IH]; simpl.
  - rewrite H; reflexivity.
  - destruct (text_eqb k k'') eqn:E; simpl.
    + apply text_eqb_eq in E; subst k''; rewrite H; reflexivity.
    + destruct (text_eqb k' k''); [reflexivity|exact IH].
Qed.

Lemma get_none_some : forall k k' c m,
  get k c = None -> get k' c = Some m -> text_eqb k k' = false.
Proof.
  intros k k' c m H1 H2; destruct (text_eqb k k') eqn:E; [|reflexivity].
  apply text_eqb_eq in E; subst k'; congruence.
Qed.

Lemma position_lt : forall x l i, position x l = Some i -> (i < List.length l)%nat.
Proof.
  intros x l; induction l as [|y l IH]; intros i H; simpl in H; [discriminate|].
  destruct (text_eqb y x); [injection H as <-; simpl; lia|].
  destruct (position x l) as [i'|]; simpl in H; [|discriminate].
  injection H as <-; specialize (IH i' eq_refl); simpl; lia.
Qed.

Lemma set_nth_spec : forall {A} (l : list A) i v, (i < List.length l)%nat ->
  exists l', set_nth i v l = Some l' /\ List.length l' = List.length l /\
    nth_error l' i = Some v /\ forall j, j <> i -> nth_error l' j = nth_error l j.
Proof.
  intros A l; induction l as [|y l IH]; intros i v H; simpl in H; [lia|].
  destruct i as [|i].
  - exists (v :: l); split; [reflexivity|split; [reflexivity|split; [reflexivity|]]].
    intros [|j] Hj; [lia|reflexivity].
  - destruct (IH i v ltac:(lia)) as (l' & E & Hl & Hi & Hj).
    exists (y :: l'); split; [simpl; rewrite E; reflexivity|].
    split; [simpl; lia|split; [exact Hi|]].
    intros [|j] Hji; [reflexivity|apply Hj; lia].
Qed.

Lemma get_fold_insert_none : forall k (ms : list Module) c,
  get k c = None -> (forall m, In m ms -> text_eqb k (name m) = false) ->
  get k (fold_left (fun c m => insert (name m) m c) ms c) = None.
Proof.
  intros k ms; induction ms as [|m ms IH]; intros c H Hms; simpl; [exact H|].
  apply IH; [|intros m' Hm'; apply Hms; right; exact Hm'].
  rewrite get_insert_other; [exact H|apply Hms; left; reflexivity].
Qed.

Lemma get_connect_outputs_none : forall k c from,
  get k c = None -> get k (connect_outputs c from) = None.
Proof.
  intros k c from; unfold connect_outputs.
  generalize (outputs from) as os; intros os; revert c.
  induction os as [|o os IH]; intros c H; simpl; [exact H|].
  apply IH.
  destruct (get o c) as [to|] eqn:E; [|exact H].
  rewrite get_insert_other; [exact H|exact (get_none_some k o c to H E)].
Qed.

Lemma get_fold_connect_none : forall k l c,
  get k c = None -> get k (fold_left connect_outputs l c) = None.
Proof.
  intros k l; induction l as [|m l IH]; intros c H; simpl; [exact H|].
  apply IH, get_connect_outputs_none, H.
Qed.

End Day20Extra.

(** Day 20: a flip-flop ignores a high pulse: it sends nothing and the
    circuit is unchanged. A low pulse flips its state, kept as its first
    input value, and it sends the new state; a second low pulse flips the
    state back and restores the module. *)
Theorem day20_flipflop : forall c from to m state rest,
  Day20.get to c = Some m -> Day20.module_type m = Day20.FlipFlop ->
  Day20.input_values m = state :: rest ->
  Day20.process_signal c (from, to, true) = Some (c, None) /\
  exists c1 c2,
    Day20.process_signal c (from, to, false) = Some (c1, Some (negb state)) /\
    Day20.get to c1 = Some (Day20.mkModule (Day20.name m) Day20.FlipFlop
                              (Day20.inputs m) (negb state :: rest) (Day20.outputs m)) /\
    Day20.process_signal c1 (from, to, false) = Some (c2, Some state) /\
    Day20.get to c2 = Some m.
Proof.
  intros c from to [nm ty ins vals outs] state rest Hg Ht Hv; simpl in Ht, Hv; subst ty vals.
  unfold Day20.process_signal; rewrite Hg; cbn -[Day20.get Day20.insert].
  split; [reflexivity|].
  eexists; eexists; split; [reflexivity|].
  rewrite get_insert_same; split; [reflexivity|].
  rewrite get_insert_same; cbn -[Day20.get Day20.insert].
  rewrite negb_involutive; split; [reflexivity|].
  reflexivity.
Qed.

Lemma day20_flipflop_witness :
  exists c m, Day20.circuit Day20.ascii_alphabetic Day20.example = Some c /\
    Day20.get (txt "a") c = Some m /\
    Day20.process_signal c (txt "broadcaster", txt "a", true) = Some (c, None).
Proof.
  pose (c := match Day20.circuit Day20.ascii_alphabetic Day20.example with
             | Some c => c | None => [] end).
  pose (m := match Day20.get (txt "a") c with
             | Some m => m | None => Day20.mkModule [] Day20.Broadcast [] [] [] end).
  exists c, m; split; [vm_compute; reflexivity|]; split; [vm_compute; reflexivity|].
  refine (proj1 (day20_flipflop c (txt "broadcaster") (txt "a") m false [] _ _ _));
    vm_compute; reflexivity.
Defined.

(** Day 20: a conjunction whose input values match its inputs panics on a
    pulse from a module that is not one of its inputs. Otherwise it records
    the pulse in the slot of the sender, keeps the other slots, and sends a
    low pulse exactly when all its slots then hold a high pulse. *)
Theorem day20_conjunction : forall c from to m v,
  Day20.get to c = Some m -> Day20.module_type m = Day20.Conjunction ->
  List.length (Day20.input_values m) = List.length (Day20.inputs m) ->
  (Day20.position from (Day20.inputs m) = None ->
     Day20.process_signal c (from, to, v) = None) /\
  (forall i, Day20.position from (Day20.inputs m) = Some i ->
   exists c' vs out,
     Day20.process_signal c (from, to, v) = Some (c', Some out) /\
     Day20.get to c' = Some (Day20.mkModule (Day20.name m) Day20.Conjunction
                               (Day20.inputs m) vs (Day20.outputs m)) /\
     List.length vs = List.length (Day20.input_values m) /\
     nth_error vs i = Some v /\
     (forall j, j <> i -> nth_error vs j = nth_error (Day20.input_values m) j) /\
     (out = false <-> forall b, In b vs -> b = true)).
Proof.
  intros c from to [nm ty ins vals outs] v Hg Ht Hl; simpl in Ht, Hl |- *; subst ty.
  split.
  - intros Hp; unfold Day20.process_signal; rewrite Hg; cbn -[Day20.get Day20.insert].
    unfold Day20.set_input; cbn [Day20.inputs]; rewrite Hp; reflexivity.
  - intros i Hp.
    assert (Hi := position_lt _ _ _ Hp).
    destruct (set_nth_spec vals i v ltac:(lia)) as (vs & Hs & Hlen & Hvi & Hj).
    exists (Day20.insert to (Day20.mkModule nm Day20.Conjunction ins vs outs) c), vs,
      (negb (forallb (fun x => x) vs)).
    split.
    + unfold Day20.process_signal; rewrite Hg; cbn -[Day20.get Day20.insert].
      unfold Day20.set_input; cbn [Day20.inputs Day20.input_values]; rewrite Hp.
      cbn [obind]; rewrite Hs; reflexivity.
    + split; [apply get_insert_same|].
      split; [exact Hlen|]; split; [exact Hvi|]; split; [exact Hj|].
      rewrite negb_false_iff, forallb_forall; split; intros H b Hb; apply (H b Hb).
Qed.

Lemma day20_conjunction_witness :
  exists c m i, Day20.circuit Day20.ascii_alphabetic Day20.example = Some c /\
    Day20.get (txt "con") c = Some m /\
    Day20.position (txt "a") (Day20.inputs m) = Some i /\
    exists c' vs out,
      Day20.process_signal c (txt "a", txt "con", true) = Some (c', Some out) /\
      nth_error vs i = Some true.
Proof.
  pose (c := match Day20.circuit Day20.ascii_alphabetic Day20.example with
             | Some c => c | None => [] end).
  pose (m := match Day20.get (txt "con") c with
             | Some m => m | None => Day20.mkModule [] Day20.Broadcast [] [] [] end).
  pose (i := match Day20.position (txt "a") (Day20.inputs m) with
             | Some i => i | None => O end).
  assert (Hp : Day20.position (txt "a") (Day20.inputs m) = Some i)
    by (vm_compute; reflexivity).
  exists c, m, i; split; [vm_compute; reflexivity|]; split; [vm_compute; reflexivity|].
  split; [exact Hp|].
  destruct (proj2 (day20_conjunction c (txt "a") (txt "con") m true
                     ltac:(vm_compute; reflexivity) ltac:(vm_compute; reflexivity)
                     ltac:(vm_compute; reflexivity)) i Hp)
    as (c' & vs & out & H1 & _ & _ & H4 & _).
  exists c', vs, out; split; assumption.
Defined.

(** Day 20: an input without a module named [broadcaster] makes the circuit
    construction panic, and with it part 1. *)
Theorem day20_no_broadcaster : forall is_alphabetic fuel input ms,
  Day20.parse_modules is_alphabetic (lines input) = Some ms ->
  (forall m, In m ms -> Day20.name m <> txt "broadcaster") ->
  Day20.circuit is_alphabetic input = None /\
  Day20.part1 is_alphabetic fuel input = Panicked.
Proof.
  intros f fuel input ms Hp Hn.
  assert (Hc : Day20.circuit f input = None).
  { unfold Day20.circuit; rewrite Hp; cbn [obind].
    rewrite get_fold_connect_none; [reflexivity|].
    apply get_fold_insert_none; [reflexivity|].
    intros m Hm; destruct (text_eqb (txt "broadcaster") (Day20.name m)) eqn:E;
      [|reflexivity].
    apply text_eqb_eq in E; exfalso; apply (Hn m Hm); symmetry; exact E. }
  split; [exact Hc|unfold Day20.part1; rewrite Hc; reflexivity].
Qed.

Lemma day20_no_broadcaster_witness :
  Day20.part1 Day20.ascii_alphabetic 10 (txt "start -> a") = Panicked.
Proof.
  pose (ms := match Day20.parse_modules Day20.ascii_alphabetic (lines (txt "start -> a")) with
              | Some ms => ms | None => [] end).
  refine (proj2 (day20_no_broadcaster Day20.ascii_alphabetic 10 (txt "start -> a") ms _ _)).
  - vm_compute; reflexivity.
  - intros m Hm; vm_compute in Hm; destruct Hm as [<-|[]]; discriminate.
Defined.

(** ** Day 25 *)

Section Day25Extra.
Import Day25.

Lemma node_eqb_iff : forall a b, node_eqb a b = true <-> a = b.
Proof.
  intros [[a1 a2] a3] [[b1 b2] b3]; unfold node_eqb.
  rewrite !andb_true_iff, !N.eqb_eq; split; [intros [[-> ->] ->]; reflexivity|].
  intros H; injection H as -> -> ->; tauto.
Qed.

Lemma node_eqb_refl : forall a, node_eqb a a = true.
Proof. intros a; apply node_eqb_iff; reflexivity. Qed.

Lemma mem_iff : forall x l, mem x l = true <-> In x l.
Proof.
  intros x l; unfold mem; rewrite existsb_exists; split.
  - intros [y [Hy E]]; apply node_eqb_iff in E; subst y; exact Hy.
  - intros H; exists x; split; [exact H|apply node_eqb_refl].
Qed.

Lemma adj_push : forall k v g x,
  adj (push_adjacent k v g) x = if node_eqb x k then adj g x ++ [v] else adj g x.
Proof.
  intros k v g x; induction g as [|[k' vs] g IH].
  - unfold adj; simpl; destruct (node_eqb x k); reflexivity.
  - cbn [push_adjacent]; destruct (node_eqb k k') eqn:E.
    + apply node_eqb_iff in E; subst k'.
      unfold adj; cbn [lookup]; destruct (node_eqb x k); reflexivity.
    + destruct (node_eqb x k') eqn:E2.
      * apply node_eqb_iff in E2; subst k'.
        unfold adj; cbn [lookup]; rewrite node_eqb_refl.
        destruct (node_eqb x k) eqn:E3; [|reflexivity].
        apply node_eqb_iff in E3; subst k; rewrite node_eqb_refl in E; discriminate.
      * unfold adj in IH |- *; cbn [lookup]; rewrite E2; exact IH.
Qed.

Lemma in_adj_push : forall k v g x y,
  In y (adj (push_adjacent k v g) x) <-> In y (adj g x) \/ (x = k /\ y = v).
Proof.
  intros k v g x y; rewrite adj_push; destruct (node_eqb x k) eqn:E.
  - apply node_eqb_iff in E; subst x; rewrite in_app_iff; simpl; intuition.
  - split; [tauto|]; intros [H|[-> _]]; [exact H|rewrite node_eqb_refl in E; discriminate].
Qed.

Lemma add_item_sym : forall g item,
  (forall x y, In y (adj g x) -> In x (adj g y)) ->
  forall x y, In y (adj (add_item g item) x) -> In x (adj (add_item g item) y).
Proof.
  intros g [|a rest]; [tauto|]; unfold add_item; revert g.
  induction rest as [|b rest IH]; intros g Hs; simpl; [exact Hs|].
  apply IH; intros x y Hxy.
  rewrite !in_adj_push in *; intuition (subst; auto).
Qed.

Lemma fold_add_item_sym : forall items g,
  (forall x y, In y (adj g x) -> In x (adj g y)) ->
  forall x y, In y (adj (fold_left add_item items g) x) ->
              In x (adj (fold_left add_item items g) y).
Proof.
  induction items as [|it items IH]; intros g Hs; simpl; [exact Hs|].
  apply IH, add_item_sym, Hs.
Qed.

Lemma lookup_map_unique : forall x (g : Graph),
  lookup x (map (fun '(n, adjacent) => (n, unique adjacent)) g) = option_map unique (lookup x g).
Proof.
  intros x g; induction g as [|[n l] g IH]; simpl; [reflexivity|].
  destruct (node_eqb x n); [reflexivity|exact IH].
Qed.

Lemma unique_go_in : forall l seen y, In y (unique_go seen l) -> In y l.
Proof.
  induction l as [|x l IH]; intros seen y H; simpl in H; [contradiction|].
  destruct (mem x seen); [right; eapply IH; exact H|].
  destruct H as [<-|H]; [left; reflexivity|right; eapply IH; exact H].
Qed.

Lemma unique_go_complete : forall l seen y,
  In y l -> In y (unique_go seen l) \/ In y seen.
Proof.
  induction l as [|x l IH]; intros seen y H; simpl; [contradiction|].
  destruct H as [->|H].
  - destruct (mem y seen) eqn:E; [right; apply mem_iff, E|left; left; reflexivity].
  - destruct (mem x seen) eqn:E; [apply IH, H|].
    destruct (IH (x :: seen) y H) as [H1|[<-|H1]];
      [left; right; exact H1|left; left; reflexivity|right; exact H1].
Qed.

Lemma in_unique : forall l y, In y (unique l) <-> In y l.
Proof.
  intros l y; split; [apply unique_go_in|].
  intros H; destruct (unique_go_complete l [] y H) as [H1|[]]; exact H1.
Qed.

Lemma unique_go_nodup : forall l seen,
  NoDup (unique_go seen l) /\ forall y, In y (unique_go seen l) -> ~ In y seen.
Proof.
  induction l as [|x l IH]; intros seen; simpl; [split; [constructor|tauto]|].
  destruct (mem x seen) eqn:E; [apply IH|].
  destruct (IH (x :: seen)) as [Hnd Hout]; split.
  - constructor; [intro H; apply (Hout x H); left; reflexivity|exact Hnd].
  - intros y [<-|Hy] Hs; [apply mem_iff in Hs; congruence|].
    apply (Hout y Hy); right; exact Hs.
Qed.

Lemma parse_graph : forall input g, parse input = Some g ->
  exists items, alphanums_all (lines input) = Some items /\
    g = map (fun '(n, adjacent) => (n, unique adjacent)) (fold_left add_item items []).
Proof.
  intros input g H; unfold parse in H.
  destruct (alphanums_all (lines input)) as [items|]; [|discriminate].
  cbn [obind] in H; injection H as <-; exists items; split; reflexivity.
Qed.

Lemma remove_perm : forall k m v m', remove k m = Some (v, m') ->
  exists k0, Permutation m ((k0, v) :: m').
Proof.
  intros k m; induction m as [|[k' w] m IH]; intros v m' H; simpl in H; [discriminate|].
  destruct (node_eqb k k').
  - injection H as <- <-; exists k'; reflexivity.
  - destruct (remove k m) as [[w' m'']|] eqn:R; [|discriminate].
    injection H as E1 E2; subst.
    destruct (IH v m'' eq_refl) as [k0 Hp]; exists k0.
    eapply perm_trans; [apply perm_skip, Hp|apply perm_swap].
Qed.

Lemma relink_inner : forall u v m, flat_map inner (relink u v m) = flat_map inner m.
Proof.
  intros u v m; induction m as [|[n [nb i]] m IH]; simpl; [reflexivity|].
  unfold inner at 1 3; simpl; f_equal; exact IH.
Qed.

Lemma relink_nonempty : forall u v m,
  Forall (fun e => inner e <> []) m -> Forall (fun e => inner e <> []) (relink u v m).
Proof.
  intros u v m H; induction H as [|[n [nb i]] m Hi H IH]; simpl; constructor; assumption.
Qed.

(** Contraction moves merged nodes between entries, never loses or adds one,
    and never leaves an entry that stands for no node. *)
Lemma contract_inner : forall fuel rng k m m',
  contract fuel rng k m = Finished m' ->
  Permutation (flat_map inner m') (flat_map inner m) /\
  (Forall (fun e => inner e <> []) m -> Forall (fun e => inner e <> []) m').
Proof.
  induction fuel as [|fuel IH]; intros rng k m m' H; simpl in H.
  - destruct (Nat.leb (List.length m) 2); [|discriminate].
    injection H as <-; split; [reflexivity|tauto].
  - destruct (Nat.leb (List.length m) 2); [injection H as <-; split; [reflexivity|tauto]|].
    destruct (gen_range rng k (List.length m)) as [i|]; [|discriminate].
    destruct (nth_error m i) as [[merged_node x]|]; [|discriminate].
    destruct (remove merged_node m) as [[[old_neighbors pm] m1]|] eqn:R1; [|discriminate].
    destruct (gen_range rng (S k) (List.length old_neighbors)) as [j|]; [|discriminate].
    destruct (nth_error old_neighbors j) as [merge_into|]; [|discriminate].
    destruct (remove merge_into m1) as [[[nmn nmi] m2]|] eqn:R2; [|discriminate].
    destruct (mem merge_into nmn); [discriminate|].
    apply IH in H; destruct H as [Hp Hf].
    destruct (remove_perm _ _ _ _ R1) as [k0 P1].
    destruct (remove_perm _ _ _ _ R2) as [k1 P2].
    rewrite relink_inner, flat_map_app in Hp; simpl in Hp; unfold inner at 2 in Hp;
      simpl in Hp; rewrite app_nil_r in Hp.
    split.
    + eapply perm_trans; [exact Hp|].
      apply Permutation_sym; eapply perm_trans; [apply Permutation_flat_map, P1|].
      simpl; unfold inner at 1; simpl.
      eapply perm_trans; [apply Permutation_app_head, Permutation_flat_map, P2|].
      simpl; unfold inner at 1; simpl.
      eapply perm_trans; [apply Permutation_app_swap_app|].
      rewrite app_assoc; apply Permutation_app_comm.
    + intros Hm; apply Hf, relink_nonempty.
      apply (Permutation_Forall P1) in Hm; inversion Hm as [|? ? Hpm Hm1]; subst.
      apply (Permutation_Forall P2) in Hm1; inversion Hm1 as [|? ? Hnmi Hm2]; subst.
      apply Forall_app; split; [exact Hm2|].
      constructor; [|constructor].
      unfold inner in *; simpl in *; intro E; apply app_eq_nil in E; tauto.
Qed.

End Day25Extra.

(** Day 25: the parsed graph is undirected: when [b] is listed as a
    neighbour of [a], [b] is a node of the graph and lists [a] as a
    neighbour. *)
Theorem day25_parse_symmetric : forall input g a b la,
  Day25.parse input = Some g -> Day25.lookup a g = Some la -> In b la ->
  exists lb, Day25.lookup b g = Some lb /\ In a lb.
Proof.
  intros input g a b la Hp Ha Hb.
  destruct (parse_graph input g Hp) as (items & _ & ->).
  assert (Hs := fold_add_item_sym items [] ltac:(intros x y H; exact H)).
  rewrite lookup_map_unique in Ha |- *.
  destruct (Day25.lookup a (fold_left Day25.add_item items [])) as [la0|] eqn:E;
    [|discriminate].
  injection Ha as <-; apply (proj1 (in_unique _ _)) in Hb.
  assert (Hb' : In b (adj (fold_left Day25.add_item items []) a))
    by (unfold adj; rewrite E; exact Hb).
  apply Hs in Hb'; unfold adj in Hb'.
  destruct (Day25.lookup b (fold_left Day25.add_item items [])) as [lb0|]; [|contradiction].
  exists (Day25.unique lb0); split; [reflexivity|apply (proj2 (in_unique _ _)), Hb'].
Qed.

Lemma day25_parse_symmetric_witness :
  exists lb, Day25.lookup (Day25.parse_node_id (txt "la"))
               (match Day25.parse Day25.small with Some g => g | None => [] end) = Some lb /\
             In (Day25.parse_node_id (txt "le")) lb.
Proof.
  pose (g := match Day25.parse Day25.small with Some g => g | None => [] end).
  pose (la := match Day25.lookup (Day25.parse_node_id (txt "le")) g with
              | Some l => l | None => [] end).
  apply (day25_parse_symmetric Day25.small g (Day25.parse_node_id (txt "le"))
           (Day25.parse_node_id (txt "la")) la).
  - vm_compute; reflexivity.
  - vm_compute; reflexivity.
  - vm_compute; tauto.
Defined.

(** Day 25: no node is listed twice among the neighbours of a node of the
    parsed graph, even when the input names an edge more than once. *)
Theorem day25_parse_nodup : forall input g a la,
  Day25.parse input = Some g -> Day25.lookup a g = Some la -> NoDup la.
Proof.
  intros input g a la Hp Ha.
  destruct (parse_graph input g Hp) as (items & _ & ->).
  rewrite lookup_map_unique in Ha.
  destruct (Day25.lookup a (fold_left Day25.add_item items [])) as [la0|];
    [|discriminate].
  injection Ha as <-; apply unique_go_nodup.
Qed.

Lemma day25_parse_nodup_witness :
  Day25.parse (txt ("aaa: bbb" ++ Day25.nl ++ "bbb: aaa")) =
    Some [(Day25.parse_node_id (txt "aaa"), [Day25.parse_node_id (txt "bbb")]);
          (Day25.parse_node_id (txt "bbb"), [Day25.parse_node_id (txt "aaa")])] /\
  NoDup [Day25.parse_node_id (txt "bbb")].
Proof.
  split; [vm_compute; reflexivity|].
  apply (day25_parse_nodup (txt ("aaa: bbb" ++ Day25.nl ++ "bbb: aaa"))
           [(Day25.parse_node_id (txt "aaa"), [Day25.parse_node_id (txt "bbb")]);
            (Day25.parse_node_id (txt "bbb"), [Day25.parse_node_id (txt "aaa")])]
           (Day25.parse_node_id (txt "aaa"))); vm_compute; reflexivity.
Defined.

(** Day 25: when a run of Karger's contraction returns, its two groups of
    merged nodes are not empty and together count as many nodes as the graph
    has entries. *)
Theorem day25_karger_sizes : forall graph rng cuts a b,
  Day25.karger_min_cut graph rng = Finished (cuts, a, b) ->
  1 <= a /\ 1 <= b /\ a + b = Z.of_nat (List.length graph).
Proof.
  intros graph rng cuts a b H; unfold Day25.karger_min_cut in H.
  set (m0 := map (fun '(n, adjacent) => (n, (adjacent, [n]))) graph) in H.
  destruct (Day25.contract (List.length m0) rng 0 m0) as [m'| |] eqn:E; try discriminate.
  destruct m' as [|[x [nx A]] [|[y [ny B]] [|e3 rest]]]; try discriminate.
  destruct (Day25.cut_edges graph A B); [|discriminate]; injection H as _ <- <-.
  apply contract_inner in E; destruct E as [Hp Hf].
  assert (Hm0 : forall gr : Day25.Graph,
            flat_map inner (map (fun '(n, adjacent) => (n, (adjacent, [n]))) gr) = map fst gr).
  { intros gr; induction gr as [|[n l] gr IH]; simpl; [reflexivity|].
    rewrite IH; reflexivity. }
  assert (Hf0 : forall gr : Day25.Graph,
            Forall (fun e => inner e <> []) (map (fun '(n, adjacent) => (n, (adjacent, [n]))) gr)).
  { intros gr; induction gr as [|[n l] gr IH]; simpl; constructor;
      [discriminate|exact IH]. }
  subst m0.
  specialize (Hf (Hf0 graph)).
  inversion Hf as [|? ? HA Hf1]; inversion Hf1 as [|? ? HB _]; subst.
  unfold inner in HA, HB; simpl in HA, HB.
  apply Permutation_length in Hp; rewrite Hm0, length_map in Hp.
  simpl in Hp; unfold inner in Hp; simpl in Hp; rewrite app_nil_r, length_app in Hp.
  destruct A; [contradiction|]; destruct B; [contradiction|]; simpl in *; lia.
Qed.

Lemma day25_karger_sizes_witness :
  Day25.karger_min_cut
    (match Day25.parse Day25.small with Some g => g | None => [] end) (Day25.lcg 8)
    = Finished (3, 5, 5) /\ 5 + 5 = 10.
Proof.
  split; [vm_compute; reflexivity|].
  refine (proj2 (proj2 (day25_karger_sizes
     (match Day25.parse Day25.small with Some g => g | None => [] end) (Day25.lcg 8)
     3 5 5 _))); vm_compute; reflexivity.
Defined.

(** Day 25: part 1 panics on an input whose graph has fewer than two nodes
    (the empty input among them): no trial can end with two groups. *)
Theorem day25_part1_too_small : forall input g rngs order,
  Day25.parse input = Some g -> (List.length g <= 1)%nat ->
  Day25.part1 rngs order input = Panicked.
Proof.
  intros input g rngs order Hp Hl; unfold Day25.part1; rewrite Hp.
  assert (Ht : forall i, Day25.trial_result g rngs i = Panicked).
  { intros i; unfold Day25.trial_result, Day25.karger_min_cut.
    destruct g as [|[n l] [|e2 g]]; [reflexivity|reflexivity|simpl in Hl; lia]. }
  unfold Day25.find_any; destruct order as [|i order]; [reflexivity|].
  simpl map; cbn [existsb]; rewrite Ht; reflexivity.
Qed.

Lemma day25_part1_too_small_witness :
  Day25.part1 (fun _ => Day25.lcg 0) [0%nat; 1%nat] (txt "aaa: aaa") = Panicked.
Proof.
  apply (day25_part1_too_small (txt "aaa: aaa")
           [(Day25.parse_node_id (txt "aaa"), [Day25.parse_node_id (txt "aaa")])]);
    vm_compute; [reflexivity|lia].
Defined.

Lemma alphanums_none : forall line,
  (forall c, In c line -> Day20.is_alphanum c = false) -> Day25.alphanums line = None.
Proof.
  intros line H; unfold Day25.alphanums.
  match goal with |- context [fold_right ?F [[]] line] => set (F' := F) end.
  assert (Hall : forall w, In w (fold_right F' [[]] line) -> w = []).
  { revert H; induction line as [|c line IH]; intros H w Hw.
    - destruct Hw as [<-|[]]; reflexivity.
    - cbn [fold_right] in Hw; unfold F' at 1 in Hw; cbv beta in Hw.
      rewrite (H c (or_introl eq_refl)) in Hw; simpl in Hw.
      destruct Hw as [<-|Hw]; [reflexivity|].
      apply IH; [intros c' Hc'; apply H; right; exact Hc'|exact Hw]. }
  rewrite filter_all_false; [reflexivity|].
  intros w Hw; rewrite (Hall w Hw); reflexivity.
Qed.

(** Day 25: parsing panics on an input with a line that holds no ASCII letter
    or digit (an empty line among them). *)
Theorem day25_parse_panics_on_blank_line : forall input line,
  In line (lines input) -> (forall c, In c line -> Day20.is_alphanum c = false) ->
  Day25.parse input = None.
Proof.
  intros input line Hin H; unfold Day25.parse.
  assert (Hall : forall ls, In line ls -> Day25.alphanums_all ls = None).
  { induction ls as [|l ls IH]; intros Hl; [contradiction|]; simpl.
    destruct Hl as [<-|Hl]; [rewrite alphanums_none by exact H; reflexivity|].
    destruct (Day25.alphanums l); simpl; [rewrite IH by exact Hl|]; reflexivity. }
  rewrite (Hall _ Hin); reflexivity.
Qed.

Lemma day25_parse_panics_on_blank_line_witness :
  Day25.parse (txt ("aaa: bbb" ++ Day25.nl ++ "--" ++ Day25.nl ++ "ccc: ddd")) = None.
Proof.
  apply (day25_parse_panics_on_blank_line _ (txt "--")).
  - vm_compute; tauto.
  - intros c Hc; simpl in Hc; destruct Hc as [<-|[<-|[]]]; reflexivity.
Defined.

(** ** The CLI harness *)

Section HarnessExtra.
Import Harness.

Lemma digit_of : forall r, 0 <= r < 10 ->
  is_digit10 (Z.to_N (48 + r)) = true /\ Z.of_N (Z.to_N (48 + r) - 48) = r.
Proof.
  intros r Hr; split.
  - unfold is_digit10; apply andb_true_iff; split; apply N.leb_le; lia.
  - rewrite N2Z.inj_sub by lia; rewrite Z2N.id by lia; lia.
Qed.

Lemma decimal_go_value : forall f n acc a, 0 <= n < 10 ^ Z.of_nat f ->
  exists k, 0 <= k /\
    digits_value a (decimal_go f n acc) = digits_value (a * 10 ^ k + n) acc.
Proof.
  induction f as [|f IH]; intros n acc a Hn.
  - exists 0; split; [lia|]; simpl in Hn |- *; replace (a * 1 + n) with a by lia; reflexivity.
  - cbn [decimal_go].
    assert (Hr : 0 <= n mod 10 < 10) by (apply Z.mod_pos_bound; lia).
    destruct (digit_of (n mod 10) Hr) as [Hd Hv].
    destruct (Z.ltb_spec n 10) as [Hlt|Hge].
    + exists 1; split; [lia|]; cbn [digits_value]; rewrite Hd, Hv.
      rewrite Z.mod_small by lia; f_equal; lia.
    + assert (Hq : 0 <= n / 10 < 10 ^ Z.of_nat f).
      { split; [apply Z.div_pos; lia|].
        apply Z.div_lt_upper_bound; [lia|].
        rewrite Nat2Z.inj_succ, Z.pow_succ_r in Hn by lia; lia. }
      destruct (IH (n / 10) (Z.to_N (48 + n mod 10) :: acc) a Hq) as [k [Hk E]].
      exists (k + 1); split; [lia|]; rewrite E; cbn [digits_value]; rewrite Hd, Hv.
      f_equal; rewrite Z.pow_add_r by lia.
      pose proof (Z.div_mod n 10 ltac:(lia)); lia.
Qed.

Lemma decimal_go_shape : forall f n acc, 0 <= n ->
  (forall c, In c acc -> is_digit10 c = true) ->
  (forall c, In c (decimal_go f n acc) -> is_digit10 c = true) /\
  (acc <> [] -> decimal_go f n acc <> []).
Proof.
  induction f as [|f IH]; intros n acc Hn Hacc; [split; [exact Hacc|tauto]|].
  cbn [decimal_go].
  assert (Hr : 0 <= n mod 10 < 10) by (apply Z.mod_pos_bound; lia).
  destruct (digit_of (n mod 10) Hr) as [Hd _].
  assert (Hacc' : forall c, In c (Z.to_N (48 + n mod 10) :: acc) -> is_digit10 c = true)
    by (intros c [<-|Hc]; [exact Hd|apply Hacc, Hc]).
  destruct (n <? 10).
  - split; [exact Hacc'|discriminate].
  - destruct (IH (n / 10) _ ltac:(apply Z.div_pos; lia) Hacc') as [H1 H2].
    split; [exact H1|intros _; apply H2; discriminate].
Qed.

Lemma decimal_fuel : forall n, 0 <= n ->
  0 <= n < 10 ^ Z.of_nat (S (Z.to_nat (Z.log2 (Z.max n 1)))).
Proof.
  intros n Hn; split; [exact Hn|].
  assert (HL : 0 <= Z.log2 (Z.max n 1)) by apply Z.log2_nonneg.
  rewrite Nat2Z.inj_succ, Z2Nat.id by exact HL.
  destruct (Z.log2_spec (Z.max n 1) ltac:(lia)) as [_ H2].
  assert (2 ^ Z.succ (Z.log2 (Z.max n 1)) <= 10 ^ Z.succ (Z.log2 (Z.max n 1)))
    by (apply Z.pow_le_mono_l; lia).
  lia.
Qed.

Lemma decimal_value : forall n, 0 <= n -> digits_value 0 (decimal n) = Some n.
Proof.
  intros n Hn; unfold decimal.
  destruct (decimal_go_value _ n [] 0 (decimal_fuel n Hn)) as [k [_ E]].
  rewrite E; reflexivity.
Qed.

Lemma decimal_digits : forall n, 0 <= n ->
  (forall c, In c (decimal n) -> is_digit10 c = true) /\ decimal n <> [].
Proof.
  intros n Hn; unfold decimal; cbn [decimal_go].
  assert (Hr : 0 <= n mod 10 < 10) by (apply Z.mod_pos_bound; lia).
  destruct (digit_of (n mod 10) Hr) as [Hd _].
  assert (Hacc : forall c, In c [Z.to_N (48 + n mod 10)] -> is_digit10 c = true)
    by (intros c [<-|[]]; exact Hd).
  destruct (n <? 10); [split; [exact Hacc|discriminate]|].
  destruct (decimal_go_shape (Z.to_nat (Z.log2 (Z.max n 1))) (n / 10) _
              ltac:(apply Z.div_pos; lia) Hacc) as [H1 H2].
  split; [exact H1|apply H2; discriminate].
Qed.

Lemma parse_u32_decimal : forall n, 0 <= n <= 2 ^ 32 - 1 -> parse_u32 (decimal n) = Some n.
Proof.
  intros n Hn.
  destruct (decimal_digits n ltac:(lia)) as [Hdig Hne].
  pose proof (decimal_value n ltac:(lia)) as Hv.
  destruct (decimal n) as [|c rest] eqn:E; [contradiction|].
  assert (Hc := Hdig c (or_introl eq_refl)).
  unfold is_digit10 in Hc; apply andb_true_iff in Hc; destruct Hc as [Hc1 Hc2].
  apply N.leb_le in Hc1.
  unfold parse_u32, parse_int.
  replace (c =? 43)%N with false by (symmetry; apply N.eqb_neq; lia).
  cbn [andb]; rewrite Hv; cbn [obind].
  replace ((0 <=? n) && (n <=? 2 ^ 32 - 1)) with true; [reflexivity|].
  symmetry; apply andb_true_iff; split; apply Z.leb_le; lia.
Qed.

Lemma digits_value_zeros : forall k s, digits_value 0 (repeat 48%N k ++ s) = digits_value 0 s.
Proof. induction k as [|k IH]; intros s; [reflexivity|exact (IH s)]. Qed.

End HarnessExtra.

(** Harness: two different days never read the same input file: the file
    name holds the day number in decimal, padded with zeros. *)
Theorem harness_day_path_injective : forall d1 d2,
  0 <= d1 -> 0 <= d2 -> Harness.day_path d1 = Harness.day_path d2 -> d1 = d2.
Proof.
  intros d1 d2 H1 H2 E; unfold Harness.day_path in E.
  apply app_inv_head in E; apply app_inv_tail in E.
  assert (V : forall d, 0 <= d -> digits_value 0 (Harness.pad_zeros 2 (Harness.decimal d)) = Some d)
    by (intros d Hd; unfold Harness.pad_zeros; rewrite digits_value_zeros; apply decimal_value, Hd).
  pose proof (V d1 H1) as V1; rewrite E, (V d2 H2) in V1; injection V1 as ->; reflexivity.
Qed.

Lemma harness_day_path_injective_witness :
  Harness.day_path 1 <> Harness.day_path 10.
Proof.
  intro E; apply (harness_day_path_injective 1 10) in E; lia.
Defined.

(** Harness: passing the decimal form of a day that has a solution (a day in
    the [u32] range) as the command-line argument selects that day. *)
Theorem harness_select_printed_day : forall solutions sol prog rest,
  In sol solutions -> 0 <= Harness.day sol <= 2 ^ 32 - 1 ->
  exists sol', Harness.select solutions (prog :: Harness.decimal (Harness.day sol) :: rest)
                 = Some sol' /\ In sol' solutions /\ Harness.day sol' = Harness.day sol.
Proof.
  intros solutions sol prog rest Hin Hd.
  rewrite (select_argument solutions prog _ rest (Harness.day sol)).
  - apply find_day_some, in_map, Hin.
  - intros E; subst solutions; contradiction.
  - apply parse_u32_decimal, Hd.
Qed.

Lemma harness_select_printed_day_witness :
  exists sol', Harness.select Harness.listed_solutions [txt "aoc"; txt "7"] = Some sol' /\
    In sol' Harness.listed_solutions /\ Harness.day sol' = 7.
Proof.
  exact (harness_select_printed_day Harness.listed_solutions
           (Harness.mkSolution 7 (fun _ => Some 0) (fun _ => Some 0)) (txt "aoc") []
           ltac:(simpl; tauto) ltac:(simpl; lia)).
Defined.

(** ** Day 20, the module parser *)

Section Day20ParseExtra.
Import Day20.

Lemma span_app : forall p w rest,
  (forall c, In c w -> p c = true) ->
  (forall c rest', rest = c :: rest' -> p c = false) ->
  span p (w ++ rest) = (w, rest).
Proof.
  intros p w rest Hw Hr; induction w as [|c w IH]; simpl.
  - destruct rest as [|c rest']; simpl; [reflexivity|rewrite (Hr c rest' eq_refl); reflexivity].
  - rewrite (Hw c (or_introl eq_refl)), IH by (intros; apply Hw; right; assumption).
    reflexivity.
Qed.

Lemma id_p_app : forall w rest,
  w <> [] -> (forall c, In c w -> is_alphanum c = true) ->
  (forall c rest', rest = c :: rest' -> is_alphanum c = false) ->
  id_p (w ++ rest) = Some (w, rest).
Proof.
  intros w rest Hne Hw Hr; unfold id_p; rewrite span_app by assumption.
  destruct w; [contradiction|reflexivity].
Qed.

Lemma literal_app : forall l r, literal l (l ++ r) = Some r.
Proof.
  intros l r; unfold literal; rewrite is_prefix_app; f_equal.
  induction l as [|a l IH]; simpl; [reflexivity|exact IH].
Qed.

Lemma outputs_head : forall os c rest,
  flat_map (fun w => txt ", " ++ w) os = c :: rest -> is_alphanum c = false.
Proof.
  intros [|w os] c rest H; simpl in H; [discriminate|].
  injection H as <- _; reflexivity.
Qed.

Lemma outputs_length : forall os,
  (List.length os <= List.length (flat_map (fun w => txt ", " ++ w) os))%nat.
Proof.
  induction os as [|w os IH]; [simpl; lia|].
  simpl in IH |- *; rewrite length_app; lia.
Qed.

Lemma more_items_outputs : forall os fuel,
  Forall (fun w => w <> [] /\ forall c, In c w -> is_alphanum c = true) os ->
  (List.length os <= fuel)%nat ->
  more_items fuel (flat_map (fun w => txt ", " ++ w) os) = (os, []).
Proof.
  induction os as [|w os IH]; intros fuel Hf Hl.
  - destruct fuel; reflexivity.
  - destruct fuel as [|fuel]; [simpl in Hl; lia|].
    inversion Hf as [|? ? [Hne Hw] Hos]; subst.
    cbn [more_items flat_map].
    rewrite <- app_assoc, literal_app.
    rewrite id_p_app by (assumption || apply outputs_head).
    rewrite IH by (assumption || (simpl in Hl; lia)).
    reflexivity.
Qed.

Lemma module_p_rest : forall f s t nm o os,
  module_type_p f s = (t, (nm ++ txt " -> " ++ o ++ flat_map (fun w => txt ", " ++ w) os)%list) ->
  nm <> [] -> (forall c, In c nm -> is_alphanum c = true) ->
  Forall (fun w => w <> [] /\ forall c, In c w -> is_alphanum c = true) (o :: os) ->
  module_p f s = Some (mkModule nm t [] [] (o :: os)).
Proof.
  intros f s t nm o os Hty Hne Hnm Hos.
  inversion Hos as [|? ? [Hone Ho] Hrest]; subst.
  unfold module_p; rewrite Hty.
  rewrite id_p_app by (try assumption; intros c rest' E; injection E as <- _; reflexivity).
  cbn [obind]; rewrite literal_app; cbn [obind].
  unfold connections_p.
  rewrite id_p_app by (assumption || apply outputs_head).
  rewrite more_items_outputs by (assumption || apply outputs_length).
  reflexivity.
Qed.

End Day20ParseExtra.

(** Day 20: a module line made of a type prefix (none, ['%'] or ['&']), a
    name of ASCII letters and digits, [" -> "] and one or more such output
    names separated by [", "] parses back to that module, with no inputs yet.
    This needs [is_alphabetic] to reject ['%'] and ['&'] and, for a
    broadcast module, to accept the first char of its name. *)
Theorem day20_module_line_roundtrip : forall is_alphabetic t nm o os,
  is_alphabetic 37%N = false -> is_alphabetic 38%N = false ->
  nm <> [] -> (forall c, In c nm -> Day20.is_alphanum c = true) ->
  (t = Day20.Broadcast -> forall c nm', nm = c :: nm' -> is_alphabetic c = true) ->
  Forall (fun w => w <> [] /\ forall c, In c w -> Day20.is_alphanum c = true) (o :: os) ->
  Day20.module_p is_alphabetic (module_line t nm o os) =
    Some (Day20.mkModule nm t [] [] (o :: os)).
Proof.
  intros f t nm o os H37 H38 Hne Hnm Hb Hos.
  apply module_p_rest; try assumption.
  unfold module_line; destruct t; simpl type_prefix; cbn [app].
  - destruct nm as [|c nm']; [contradiction|].
    unfold Day20.module_type_p; simpl; rewrite (Hb eq_refl c nm' eq_refl); reflexivity.
  - unfold Day20.module_type_p; simpl; rewrite H37; reflexivity.
  - unfold Day20.module_type_p; simpl; rewrite H38; reflexivity.
Qed.

Lemma day20_module_line_roundtrip_witness :
  Day20.module_p Day20.ascii_alphabetic (txt "%a -> inv, con") =
    Some (Day20.mkModule (txt "a") Day20.FlipFlop [] [] [txt "inv"; txt "con"]).
Proof.
  change (txt "%a -> inv, con") with
    (module_line Day20.FlipFlop (txt "a") (txt "inv") [txt "con"]).
  apply day20_module_line_roundtrip.
  - reflexivity.
  - reflexivity.
  - discriminate.
  - intros c Hc; simpl in Hc; destruct Hc as [<-|[]]; reflexivity.
  - discriminate.
  - repeat constructor; try discriminate;
      intros c Hc; simpl in Hc; repeat destruct Hc as [<-|Hc]; try contradiction; reflexivity.
Defined.

(** Day 20: a module line without a type prefix whose first char is not
    alphabetic (and not ['%'] or ['&']) loses that char: [module_type] takes it
    as the type symbol of a broadcast module, and the name is the rest, so
    ["1a -> b"] is a broadcast module named ["a"]. *)
Theorem day20_module_line_drops_first_char : forall is_alphabetic c nm o os,
  is_alphabetic c = false -> c <> 37%N -> c <> 38%N ->
  nm <> [] -> (forall c', In c' nm -> Day20.is_alphanum c' = true) ->
  Forall (fun w => w <> [] /\ forall c', In c' w -> Day20.is_alphanum c' = true) (o :: os) ->
  Day20.module_p is_alphabetic (c :: module_line Day20.Broadcast nm o os) =
    Some (Day20.mkModule nm Day20.Broadcast [] [] (o :: os)).
Proof.
  intros f c nm o os Hc H37 H38 Hne Hnm Hos.
  apply module_p_rest; try assumption.
  unfold Day20.module_type_p; rewrite Hc; cbn [negb].
  apply N.eqb_neq in H37, H38; rewrite H37, H38; reflexivity.
Qed.

Lemma day20_module_line_drops_first_char_witness :
  Day20.module_p Day20.ascii_alphabetic (txt "1a -> b") =
    Some (Day20.mkModule (txt "a") Day20.Broadcast [] [] [txt "b"]).
Proof.
  change (txt "1a -> b") with (49%N :: module_line Day20.Broadcast (txt "a") (txt "b") []).
  apply day20_module_line_drops_first_char.
  - reflexivity.
  - discriminate.
  - discriminate.
  - discriminate.
  - intros c Hc; simpl in Hc; destruct Hc as [<-|[]]; reflexivity.
  - repeat constructor; try discriminate;
      intros c Hc; simpl in Hc; repeat destruct Hc as [<-|Hc]; try contradiction; reflexivity.
Defined.

(** ** Day 20, part 2 *)

(** Day 20: part 2 panics when no module of the circuit sends to [rx]. *)
Theorem day20_part2_needs_rx : forall is_alphabetic presses fuel input c,
  Day20.circuit is_alphabetic input = Some c ->
  (forall m, In m (map snd c) -> ~ In (txt "rx") (Day20.outputs m)) ->
  Day20.part2 is_alphabetic presses fuel input = Panicked.
Proof.
  intros f presses fuel input c Hc Hn; unfold Day20.part2; rewrite Hc.
  assert (Hf : forall l, (forall m, In m l -> Day20.contains (Day20.outputs m) (txt "rx") = false) ->
            find (fun m => Day20.contains (Day20.outputs m) (txt "rx")) l = None).
  { induction l as [|x l IH]; intros Hl; [reflexivity|].
    simpl; rewrite (Hl x (or_introl eq_refl)); apply IH; intros m Hm; apply Hl; right; exact Hm. }
  rewrite Hf; [reflexivity|].
  intros m Hm; unfold Day20.contains; apply not_true_is_false; intro E.
  apply existsb_exists in E; destruct E as [o [Ho E]].
  apply text_eqb_eq in E; subst o; exact (Hn m Hm Ho).
Qed.

Lemma day20_part2_needs_rx_witness :
  Day20.part2 Day20.ascii_alphabetic 10 100 Day20.example = Panicked.
Proof.
  pose (c := match Day20.circuit Day20.ascii_alphabetic Day20.example with
             | Some c => c | None => [] end).
  apply (day20_part2_needs_rx _ _ _ _ c); [vm_compute; reflexivity|].
  intros m Hm Ho; vm_compute in Hm.
  repeat destruct Hm as [<-|Hm]; try contradiction; vm_compute in Ho; intuition discriminate.
Defined.
